(** * MAGDA DSL interpreter: a shallow embedding of the Python handlers

    The development follows the three Python modules of
    [magda_agents/agents/daw]:

    - [DslParser]        <- dsl_parser.py                 (actions are dicts)
    - [ActionParadigm]   <- dsl_parser_action_paradigm.py (actions are
                            [Action(kind, payload)], emitted through a runtime)
    - [Functional]       <- dsl_parser_functional.py      (filter / map /
                            for_each and the expression evaluator)

    [Py] holds the small part of Python's data model the handlers rely on:
    dynamically typed values, insertion-ordered dicts, exceptions, truthiness
    and [str.rstrip] / [str.lstrip]. *)

From Stdlib Require Import ZArith List String Ascii Bool Lia.
From Stdlib Require Import Floats.PrimFloat.
Import ListNotations.

Set Warnings "-register-all".
Open Scope string_scope.
Open Scope list_scope.
Open Scope Z_scope.

(* ================================================================== *)
(** ** Python values, dicts, exceptions *)
(* ================================================================== *)

Module Py.

(** JSON-like runtime values.  [VFloat] carries an IEEE binary64, as a Python
    [float] does; [VObject] stands for objects the DSL never looks into
    (bound methods, the interpreter object). *)
Inductive value : Type :=
| VNone
| VBool (b : bool)
| VInt (z : Z)
| VFloat (f : float)
| VStr (s : string)
| VList (l : list value)
| VDict (d : list (string * value))
| VObject (repr : string).

(** A dict with string keys, in insertion order. *)
Definition dict : Type := list (string * value).

(** Exceptions.  [BaseExceptionOnly] stands for the classes that derive from
    [BaseException] but not from [Exception] (KeyboardInterrupt, SystemExit,
    GeneratorExit): an [except Exception] clause lets them through. *)
Inductive exn_class : Type :=
| ValueError | TypeError | AttributeError | IndexError | ZeroDivisionError
| OtherException | BaseExceptionOnly.

Record exn : Type := Raise { exn_cls : exn_class; exn_msg : string }.

Definition is_Exception (e : exn) : bool :=
  match exn_cls e with
  | BaseExceptionOnly => false
  | _ => true
  end.

Inductive result (A : Type) : Type :=
| Ok (a : A)
| Err (e : exn).
Arguments Ok {A} a.
Arguments Err {A} e.

Definition bind {A B : Type} (r : result A) (k : A -> result B) : result B :=
  match r with
  | Ok a => k a
  | Err e => Err e
  end.

Notation "'do' x <- r ; k" := (bind r (fun x => k))
  (at level 10, x name, r at level 100, k at level 200).

Definition is_ok {A : Type} (r : result A) : bool :=
  match r with Ok _ => true | Err _ => false end.

(** [d.get(k)] / [k in d] / [d[k] = v]. *)
Fixpoint dict_get (d : dict) (k : string) : option value :=
  match d with
  | [] => None
  | (k', v) :: rest => if String.eqb k' k then Some v else dict_get rest k
  end.

Definition dict_get_default (d : dict) (k : string) (default : value) : value :=
  match dict_get d k with
  | Some v => v
  | None => default
  end.

Definition dict_contains (d : dict) (k : string) : bool :=
  match dict_get d k with Some _ => true | None => false end.

(** Assignment keeps the position of an existing key and appends a new one. *)
Fixpoint dict_set (d : dict) (k : string) (v : value) : dict :=
  match d with
  | [] => [(k, v)]
  | (k', v') :: rest =>
      if String.eqb k' k then (k', v) :: rest else (k', v') :: dict_set rest k v
  end.

Definition dict_keys (d : dict) : list string := map fst d.

(** [bool(v)]. *)
Definition truthy (v : value) : bool :=
  match v with
  | VNone => false
  | VBool b => b
  | VInt z => negb (Z.eqb z 0)
  | VFloat f => negb (PrimFloat.eqb f 0%float)
  | VStr s => negb (String.eqb s EmptyString)
  | VList l => match l with [] => false | _ => true end
  | VDict d => match d with [] => false | _ => true end
  | VObject _ => true
  end.

(** [type(v).__name__]. *)
Definition type_name (v : value) : string :=
  match v with
  | VNone => "NoneType"
  | VBool _ => "bool"
  | VInt _ => "int"
  | VFloat _ => "float"
  | VStr _ => "str"
  | VList _ => "list"
  | VDict _ => "dict"
  | VObject repr => repr
  end.

(** Iterating a value, as [enumerate(v)] or [for x in v] does: a list yields
    its items, a dict its keys, a string its characters; nothing else among
    the values above is iterable. *)
Fixpoint chars (s : string) : list value :=
  match s with
  | EmptyString => []
  | String c rest => VStr (String c EmptyString) :: chars rest
  end.

Definition py_iter (v : value) : result (list value) :=
  match v with
  | VList l => Ok l
  | VDict d => Ok (map (fun kv => VStr (fst kv)) d)
  | VStr s => Ok (chars s)
  | _ => Err (Raise TypeError ("'" ++ type_name v ++ "' object is not iterable"))
  end.

(** [v.get(k, default)]: only dicts have a [get] method here. *)
Definition py_get (v : value) (k : string) (default : value) : result value :=
  match v with
  | VDict d => Ok (dict_get_default d k default)
  | _ => Err (Raise AttributeError
                ("'" ++ type_name v ++ "' object has no attribute 'get'"))
  end.

(** [c in chars] for a character and the argument of [rstrip]/[lstrip]. *)
Fixpoint char_in (c : ascii) (cs : string) : bool :=
  match cs with
  | EmptyString => false
  | String c' rest => Ascii.eqb c c' || char_in c rest
  end.

(** [s.rstrip(cs)]: drops every trailing character that belongs to the
    character set [cs] (the argument is a set of characters, not a suffix). *)
Fixpoint rstrip (s : string) (cs : string) : string :=
  match s with
  | EmptyString => EmptyString
  | String c rest =>
      match rstrip rest cs with
      | EmptyString => if char_in c cs then EmptyString else String c EmptyString
      | r => String c r
      end
  end.

(** [s.lstrip(cs)]. *)
Fixpoint lstrip (s : string) (cs : string) : string :=
  match s with
  | EmptyString => EmptyString
  | String c rest => if char_in c cs then lstrip rest cs else s
  end.

End Py.

(* ================================================================== *)
(** ** Call events *)
(* ================================================================== *)

(** One DSL method invocation with its keyword arguments, as the grammar
    hands it to a handler.  An omitted argument and an explicit [None] are
    both [None]; argument types follow the handlers' annotations. *)
Module Dsl.
Import Py.

Inductive call : Type :=
| Track (instrument name : option string) (index id : option Z)
        (selected : option bool)
| NewClip (bar : option Z) (start end_ : option float)
          (length_bars : option Z) (length position : option float)
| AddMidi (notes : option (list value)) (note : option dict)
| AddFx (fxname instrument : option string)
| SetVolume (volume_db : float)
| SetPan (pan : float)
| SetMute (mute : bool)
| SetSolo (solo : bool)
| SetName (name : string).

(** [x is True] for an optional boolean argument. *)
Definition is_True (b : option bool) : bool :=
  match b with Some true => true | _ => false end.

(** [isinstance(track, dict) and track.get("selected", False)], as a test. *)
Definition is_selected (track : value) : bool :=
  match track with
  | VDict d => truthy (dict_get_default d "selected" (VBool false))
  | _ => false
  end.

(** The loop of [_get_selected_track_index]: the index, counting from [i],
    of the first selected entry, or [-1]. *)
Fixpoint first_selected (tracks : list value) (i : Z) : Z :=
  match tracks with
  | [] => -1
  | track :: rest =>
      if is_selected track then i else first_selected rest (i + 1)
  end.

(** [_get_selected_track_index] on the [state] attribute; the two grammars
    carry the same code. *)
Definition selected_track_index (state : option dict) : result Z :=
  match state with
  | None => Ok (-1)
  | Some st =>
      let state_map := dict_get_default st "state" (VDict st) in
      do tracks <- py_get state_map "tracks" (VList []);
      do items <- py_iter tracks;
      Ok (first_selected items 0)
  end.

(** The two kinds of creation call of [track]: [id] absent and [selected]
    not [True]; with or without an explicit [index]. *)
Definition is_plain_creation (c : call) : bool :=
  match c with
  | Track _ _ None None selected => negb (is_True selected)
  | _ => false
  end.

Definition is_indexed_creation (c : call) : bool :=
  match c with
  | Track _ _ (Some _) None selected => negb (is_True selected)
  | _ => false
  end.

Definition count_plain (prog : list call) : Z :=
  Z.of_nat (List.length (List.filter is_plain_creation prog)).

End Dsl.

(* ================================================================== *)
(** ** dsl_parser.py *)
(* ================================================================== *)

Module DslParser.
Import Py Dsl.

Record MagdaDSLGrammar : Type := {
  actions : list dict;
  current_track_index : Z;
  track_counter : Z;
  state : option dict
}.

Definition __init__ : MagdaDSLGrammar :=
  {| actions := []; current_track_index := -1; track_counter := 0;
     state := None |}.

Definition set_state (st : dict) (g : MagdaDSLGrammar) : MagdaDSLGrammar :=
  {| actions := actions g; current_track_index := current_track_index g;
     track_counter := track_counter g; state := Some st |}.

Definition reset (g : MagdaDSLGrammar) : MagdaDSLGrammar :=
  {| actions := []; current_track_index := -1; track_counter := 0;
     state := state g |}.

Definition get_actions (g : MagdaDSLGrammar) : list dict := actions g.

(** [self.current_track_index = i]. *)
Definition bind_track (i : Z) (g : MagdaDSLGrammar) : MagdaDSLGrammar :=
  {| actions := actions g; current_track_index := i;
     track_counter := track_counter g; state := state g |}.

(** [self.actions.append(action)]. *)
Definition append_action (action : dict) (g : MagdaDSLGrammar)
  : MagdaDSLGrammar :=
  {| actions := actions g ++ [action];
     current_track_index := current_track_index g;
     track_counter := track_counter g; state := state g |}.

Definition _get_selected_track_index (g : MagdaDSLGrammar) : result Z :=
  selected_track_index (state g).

Definition set_opt_str (d : dict) (k : string) (o : option string) : dict :=
  match o with
  | Some s => dict_set d k (VStr s)
  | None => d
  end.

Definition track (instrument name : option string) (index id : option Z)
    (selected : option bool) (g : MagdaDSLGrammar) : result MagdaDSLGrammar :=
  match id with
  | Some i => Ok (bind_track (i - 1) g)
  | None =>
      if is_True selected then
        do selected_index <- _get_selected_track_index g;
        if selected_index >=? 0 then Ok (bind_track selected_index g)
        else Err (Raise ValueError "No selected track found in state")
      else
        let action := [("action", VStr "create_track")] in
        let action := set_opt_str action "instrument" instrument in
        let action := set_opt_str action "name" name in
        let idx := match index with
                   | Some k => k
                   | None => track_counter g
                   end in
        let action := dict_set action "index" (VInt idx) in
        Ok {| actions := actions g ++ [action];
              current_track_index := idx;
              track_counter := idx + 1;
              state := state g |}
  end.

Definition new_clip (bar : option Z) (start end_ : option float)
    (length_bars : option Z) (length position : option float)
    (g : MagdaDSLGrammar) : result MagdaDSLGrammar :=
  do track_index <-
    (if current_track_index g <? 0 then
       do sel <- _get_selected_track_index g;
       if sel <? 0 then
         Err (Raise ValueError
                "No track context for clip call and no selected track found")
       else Ok sel
     else Ok (current_track_index g));
  let action := [("track", VInt track_index)] in
  let length_or_default :=
    VFloat (match length with Some l => l | None => 4.0%float end) in
  do action <-
    match bar, start, position with
    | Some b, _, _ =>
        let action := dict_set action "action" (VStr "create_clip_at_bar") in
        let action := dict_set action "bar" (VInt b) in
        Ok (dict_set action "length_bars"
              (VInt (match length_bars with Some n => n | None => 4 end)))
    | None, Some s, _ =>
        let action := dict_set action "action" (VStr "create_clip") in
        let action := dict_set action "position" (VFloat s) in
        Ok (dict_set action "length" length_or_default)
    | None, None, Some p =>
        let action := dict_set action "action" (VStr "create_clip") in
        let action := dict_set action "position" (VFloat p) in
        Ok (dict_set action "length" length_or_default)
    | None, None, None =>
        Err (Raise ValueError "clip call must specify bar, start, or position")
    end;
  Ok (append_action action g).

Definition add_midi (notes : option (list value)) (note : option dict)
    (g : MagdaDSLGrammar) : result MagdaDSLGrammar :=
  if current_track_index g <? 0 then
    Err (Raise ValueError "No track context for midi call")
  else
    let action :=
      [("action", VStr "add_midi");
       ("track", VInt (current_track_index g));
       ("notes", VList (match notes with Some ns => ns | None => [] end))] in
    let action := match note with
                  | Some n => dict_set action "notes" (VList [VDict n])
                  | None => action
                  end in
    Ok (append_action action g).

Definition add_fx (fxname instrument : option string) (g : MagdaDSLGrammar)
  : result MagdaDSLGrammar :=
  if current_track_index g <? 0 then
    Err (Raise ValueError "No track context for FX call")
  else
    let action := [("action", VStr "add_track_fx");
                   ("track", VInt (current_track_index g))] in
    do action <-
      match fxname, instrument with
      | Some f, _ => Ok (dict_set action "fxname" (VStr f))
      | None, Some i =>
          let action := dict_set action "action" (VStr "add_instrument") in
          Ok (dict_set action "fxname" (VStr i))
      | None, None =>
          Err (Raise ValueError "FX call must specify fxname or instrument")
      end;
    Ok (append_action action g).

(** The five setters share one shape: guard, three-entry dict, append. *)
Definition set_field (what action_name key : string) (v : value)
    (g : MagdaDSLGrammar) : result MagdaDSLGrammar :=
  if current_track_index g <? 0 then
    Err (Raise ValueError ("No track context for " ++ what ++ " call"))
  else
    Ok (append_action [("action", VStr action_name);
                       ("track", VInt (current_track_index g));
                       (key, v)] g).

Definition set_volume (volume_db : float) :=
  set_field "volume" "set_track_volume" "volume_db" (VFloat volume_db).
Definition set_pan (pan : float) :=
  set_field "pan" "set_track_pan" "pan" (VFloat pan).
Definition set_mute (mute : bool) :=
  set_field "mute" "set_track_mute" "mute" (VBool mute).
Definition set_solo (solo : bool) :=
  set_field "solo" "set_track_solo" "solo" (VBool solo).
Definition set_name (name : string) :=
  set_field "name" "set_track_name" "name" (VStr name).

Definition handle (c : call) : MagdaDSLGrammar -> result MagdaDSLGrammar :=
  match c with
  | Track instrument name index id selected =>
      track instrument name index id selected
  | NewClip bar start end_ length_bars length position =>
      new_clip bar start end_ length_bars length position
  | AddMidi notes note => add_midi notes note
  | AddFx fxname instrument => add_fx fxname instrument
  | SetVolume v => set_volume v
  | SetPan p => set_pan p
  | SetMute m => set_mute m
  | SetSolo s => set_solo s
  | SetName n => set_name n
  end.

(** Modelled from the spec: [Grammar.execute] belongs to the grammar_school
    package; the handlers receive the program's call events in order, and the
    first handler that raises ends the run.  A handler that raises has not
    touched the grammar, so the state reached is returned with the error. *)
Fixpoint execute (prog : list call) (g : MagdaDSLGrammar)
  : MagdaDSLGrammar * option exn :=
  match prog with
  | [] => (g, None)
  | c :: rest =>
      match handle c g with
      | Ok g' => execute rest g'
      | Err e => (g, Some e)
      end
  end.

(** [DSLParser.parse_dsl], from the call events on.  Code that is empty once
    stripped holds no call event: it is refused first, outside the [try] and
    before the grammar is reset. *)
Definition parse_dsl (prog : list call) (g : MagdaDSLGrammar)
  : MagdaDSLGrammar * result (list dict) :=
  match prog with
  | [] => (g, Err (Raise ValueError "empty DSL code"))
  | _ :: _ =>
      let (g', err) := execute prog (reset g) in
      match err with
      | Some e =>
          if is_Exception e
          then (g', Err (Raise ValueError
                           ("failed to parse DSL: " ++ exn_msg e)))
          else (g', Err e)
      | None =>
          match get_actions g' with
          | [] => (g', Err (Raise ValueError
                       "failed to parse DSL: no actions found in DSL code"))
          | acts => (g', Ok acts)
          end
      end
  end.

End DslParser.

(* ================================================================== *)
(** ** dsl_parser_action_paradigm.py *)
(* ================================================================== *)

Module ActionParadigm.
Import Py Dsl.

(** grammar_school's [Action(kind, payload)]. *)
Record Action : Type := { kind : string; payload : dict }.

(** The runtime that collects actions. *)
Record MagdaActionCollector : Type := { actions : list Action }.

Definition collector_init : MagdaActionCollector := {| actions := [] |}.

(** [MagdaActionCollector.execute]. *)
Definition collector_execute (action : Action) (c : MagdaActionCollector)
  : MagdaActionCollector :=
  {| actions := actions c ++ [action] |}.

Definition clear (c : MagdaActionCollector) : MagdaActionCollector :=
  {| actions := [] |}.

(** [{"action": action.kind, **action.payload}] for each collected action. *)
Definition api_action (a : Action) : dict :=
  fold_left (fun d kv => dict_set d (fst kv) (snd kv)) (payload a)
            [("action", VStr (kind a))].

Definition get_actions (c : MagdaActionCollector) : list dict :=
  map api_action (actions c).

(** The grammar object.  The collector is the object [_runtime] refers to, so
    it is kept inside the grammar: the parser's [self.collector] and the
    grammar's [self._runtime] are one object.  [has_interpreter] records what
    [track] probes with [hasattr]: whether the base class left an
    [interpreter] attribute whose [dsl] is this grammar. *)
Record MagdaDSLGrammar : Type := {
  _runtime : option MagdaActionCollector;
  _actions : list Action;
  current_track_index : Z;
  track_counter : Z;
  state : option dict;
  data : dict;
  has_interpreter : bool
}.

Definition __init__ (runtime : option MagdaActionCollector)
    (has_interp : bool) : MagdaDSLGrammar :=
  {| _runtime := runtime; _actions := []; current_track_index := -1;
     track_counter := 0; state := None; data := [];
     has_interpreter := has_interp |}.

Definition set_state (st : dict) (g : MagdaDSLGrammar) : MagdaDSLGrammar :=
  {| _runtime := _runtime g; _actions := _actions g;
     current_track_index := current_track_index g;
     track_counter := track_counter g; state := Some st; data := data g;
     has_interpreter := has_interpreter g |}.

Definition set_runtime (r : option MagdaActionCollector) (g : MagdaDSLGrammar)
  : MagdaDSLGrammar :=
  {| _runtime := r; _actions := _actions g;
     current_track_index := current_track_index g;
     track_counter := track_counter g; state := state g; data := data g;
     has_interpreter := has_interpreter g |}.

Definition set_actions (l : list Action) (g : MagdaDSLGrammar)
  : MagdaDSLGrammar :=
  {| _runtime := _runtime g; _actions := l;
     current_track_index := current_track_index g;
     track_counter := track_counter g; state := state g; data := data g;
     has_interpreter := has_interpreter g |}.

Definition _emit_action (action : Action) (g : MagdaDSLGrammar)
  : MagdaDSLGrammar :=
  match _runtime g with
  | Some runtime => set_runtime (Some (collector_execute action runtime)) g
  | None => set_actions (_actions g ++ [action]) g
  end.

Definition _get_selected_track_index (g : MagdaDSLGrammar) : result Z :=
  selected_track_index (state g).

Definition set_opt_str (d : dict) (k : string) (o : option string) : dict :=
  match o with
  | Some s => dict_set d k (VStr s)
  | None => d
  end.

Definition track (instrument name : option string) (index id : option Z)
    (selected : option bool) (g : MagdaDSLGrammar) : result MagdaDSLGrammar :=
  match id with
  | Some i =>
      Ok {| _runtime := _runtime g; _actions := _actions g;
            current_track_index := i - 1;
            track_counter := track_counter g; state := state g;
            data := data g; has_interpreter := has_interpreter g |}
  | None =>
      if is_True selected then
        do selected_index <- _get_selected_track_index g;
        if selected_index >=? 0 then
          Ok {| _runtime := _runtime g; _actions := _actions g;
                current_track_index := selected_index;
                track_counter := track_counter g; state := state g;
                data := data g; has_interpreter := has_interpreter g |}
        else Err (Raise ValueError "No selected track found in state")
      else
        let action_payload := set_opt_str [] "instrument" instrument in
        let action_payload := set_opt_str action_payload "name" name in
        let idx := match index with
                   | Some k => k
                   | None => track_counter g
                   end in
        let action_payload := dict_set action_payload "index" (VInt idx) in
        let g1 := {| _runtime := _runtime g; _actions := _actions g;
                     current_track_index := idx;
                     track_counter := idx + 1; state := state g;
                     data := data g;
                     has_interpreter := has_interpreter g |} in
        let action := {| kind := "create_track";
                         payload := action_payload |} in
        if has_interpreter g1 then
          match _runtime g1 with
          | Some runtime =>
              Ok (set_runtime (Some (collector_execute action runtime)) g1)
          | None => Ok g1
          end
        else Ok (set_actions (_actions g1 ++ [action]) g1)
  end.

Definition new_clip (bar : option Z) (start end_ : option float)
    (length_bars : option Z) (length position : option float)
    (g : MagdaDSLGrammar) : result MagdaDSLGrammar :=
  do track_index <-
    (if current_track_index g <? 0 then
       do sel <- _get_selected_track_index g;
       if sel <? 0 then
         Err (Raise ValueError
                "No track context for clip call and no selected track found")
       else Ok sel
     else Ok (current_track_index g));
  let payload0 := [("track", VInt track_index)] in
  let length_or_default :=
    VFloat (match length with Some l => l | None => 4.0%float end) in
  do action <-
    match bar, start, position with
    | Some b, _, _ =>
        let p := dict_set payload0 "bar" (VInt b) in
        let p := dict_set p "length_bars"
                   (VInt (match length_bars with Some n => n | None => 4 end)) in
        Ok {| kind := "create_clip_at_bar"; payload := p |}
    | None, Some s, _ =>
        let p := dict_set payload0 "position" (VFloat s) in
        Ok {| kind := "create_clip";
              payload := dict_set p "length" length_or_default |}
    | None, None, Some pos =>
        let p := dict_set payload0 "position" (VFloat pos) in
        Ok {| kind := "create_clip";
              payload := dict_set p "length" length_or_default |}
    | None, None, None =>
        Err (Raise ValueError "clip call must specify bar, start, or position")
    end;
  Ok (_emit_action action g).

Definition add_midi (notes : option (list value)) (note : option dict)
    (g : MagdaDSLGrammar) : result MagdaDSLGrammar :=
  if current_track_index g <? 0 then
    Err (Raise ValueError "No track context for midi call")
  else
    let p := [("track", VInt (current_track_index g));
              ("notes", VList (match notes with Some ns => ns | None => [] end))]
    in
    let p := match note with
             | Some n => dict_set p "notes" (VList [VDict n])
             | None => p
             end in
    Ok (_emit_action {| kind := "add_midi"; payload := p |} g).

Definition add_fx (fxname instrument : option string) (g : MagdaDSLGrammar)
  : result MagdaDSLGrammar :=
  if current_track_index g <? 0 then
    Err (Raise ValueError "No track context for FX call")
  else
    let p := [("track", VInt (current_track_index g))] in
    match fxname, instrument with
    | Some f, _ =>
        Ok (_emit_action {| kind := "add_track_fx";
                            payload := dict_set p "fxname" (VStr f) |} g)
    | None, Some i =>
        Ok (_emit_action {| kind := "add_instrument";
                            payload := dict_set p "fxname" (VStr i) |} g)
    | None, None =>
        Err (Raise ValueError "FX call must specify fxname or instrument")
    end.

Definition set_field (what action_kind key : string) (v : value)
    (g : MagdaDSLGrammar) : result MagdaDSLGrammar :=
  if current_track_index g <? 0 then
    Err (Raise ValueError ("No track context for " ++ what ++ " call"))
  else
    Ok (_emit_action
          {| kind := action_kind;
             payload := [("track", VInt (current_track_index g)); (key, v)] |}
          g).

Definition set_volume (volume_db : float) :=
  set_field "volume" "set_track_volume" "volume_db" (VFloat volume_db).
Definition set_pan (pan : float) :=
  set_field "pan" "set_track_pan" "pan" (VFloat pan).
Definition set_mute (mute : bool) :=
  set_field "mute" "set_track_mute" "mute" (VBool mute).
Definition set_solo (solo : bool) :=
  set_field "solo" "set_track_solo" "solo" (VBool solo).
Definition set_name (name : string) :=
  set_field "name" "set_track_name" "name" (VStr name).

(** [store(name, value)]: the one functional method of this module that
    writes to the grammar; [map], [filter] and [reduce] here only return
    data. *)
Definition store (name : string) (v : value) (g : MagdaDSLGrammar)
  : MagdaDSLGrammar :=
  {| _runtime := _runtime g; _actions := _actions g;
     current_track_index := current_track_index g;
     track_counter := track_counter g; state := state g;
     data := dict_set (data g) name v;
     has_interpreter := has_interpreter g |}.

(** Call events of this grammar: the nine handlers and [store]. *)
Inductive event : Type :=
| Handler (c : call)
| Store (name : string) (v : value).

Definition handle (ev : event) (g : MagdaDSLGrammar)
  : result MagdaDSLGrammar :=
  match ev with
  | Handler (Track instrument name index id selected) =>
      track instrument name index id selected g
  | Handler (NewClip bar start end_ length_bars length position) =>
      new_clip bar start end_ length_bars length position g
  | Handler (AddMidi notes note) => add_midi notes note g
  | Handler (AddFx fxname instrument) => add_fx fxname instrument g
  | Handler (SetVolume v) => set_volume v g
  | Handler (SetPan p) => set_pan p g
  | Handler (SetMute m) => set_mute m g
  | Handler (SetSolo s) => set_solo s g
  | Handler (SetName n) => set_name n g
  | Store name v => Ok (store name v g)
  end.

(** Modelled from the spec: [Grammar.execute] belongs to the grammar_school
    package; call events reach the handlers in program order and the first
    handler that raises ends the run. *)
Fixpoint execute (prog : list event) (g : MagdaDSLGrammar)
  : MagdaDSLGrammar * option exn :=
  match prog with
  | [] => (g, None)
  | ev :: rest =>
      match handle ev g with
      | Ok g' => execute rest g'
      | Err e => (g, Some e)
      end
  end.

(** The action sink of a grammar: the collector when there is a runtime, the
    grammar's own list otherwise. *)
Definition sink (g : MagdaDSLGrammar) : list Action :=
  match _runtime g with
  | Some runtime => actions runtime
  | None => _actions g
  end.

(** [DSLParserActionParadigm]: a collector and a grammar whose runtime is
    that collector.  The grammar's [_runtime] field holds the shared object
    during a run; [collector] is where the parser reads it back. *)
Record DSLParserActionParadigm : Type := {
  collector : MagdaActionCollector;
  grammar : MagdaDSLGrammar
}.

Definition parser_init (has_interp : bool) : DSLParserActionParadigm :=
  {| collector := collector_init;
     grammar := __init__ (Some collector_init) has_interp |}.

(** [DSLParserActionParadigm.parse_dsl], from the call events on.  Code that
    is empty once stripped holds no call event: it is refused first, outside
    the [try] and before the collector is cleared.  Otherwise the collector
    is cleared, the grammar is not reset. *)
Definition parse_dsl (prog : list event) (p : DSLParserActionParadigm)
  : DSLParserActionParadigm * result (list dict) :=
  match prog with
  | [] => (p, Err (Raise ValueError "empty DSL code"))
  | _ :: _ =>
      let c0 := clear (collector p) in
      let (g', err) := execute prog (set_runtime (Some c0) (grammar p)) in
      let c' := match _runtime g' with Some c => c | None => c0 end in
      let p' := {| collector := c'; grammar := g' |} in
      match err with
      | Some e =>
          if is_Exception e
          then (p', Err (Raise ValueError
                           ("failed to parse DSL: " ++ exn_msg e)))
          else (p', Err e)
      | None =>
          match get_actions c' with
          | [] => (p', Err (Raise ValueError
                       "failed to parse DSL: no actions found in DSL code"))
          | acts => (p', Ok acts)
          end
      end
  end.

End ActionParadigm.

(* ================================================================== *)
(** ** dsl_parser_functional.py *)
(* ================================================================== *)

Module Functional.
Import Py.

(** grammar_school's AST nodes, as the evaluator reads them: [Value.value],
    [PropertyAccess.object_name] / [.properties], and
    [Expression.left] / [.operator] / [.right]. *)
Inductive node : Type :=
| Value (v : value)
| PropertyAccess (object_name : string) (properties : list string)
| Expression (left : node) (operator : option string) (right : option node).

(** The grammar object together with its interpreter's
    [_iteration_context]. *)
Record ReaperDSLGrammar : Type := {
  current_track_index : Z;
  track_counter : Z;
  state : option dict;
  data : dict;
  _actions : list dict;
  _iteration_context : dict
}.

Definition __init__ : ReaperDSLGrammar :=
  {| current_track_index := -1; track_counter := 0; state := None;
     data := []; _actions := []; _iteration_context := [] |}.

Definition set_iteration_context (context : dict) (g : ReaperDSLGrammar)
  : ReaperDSLGrammar :=
  {| current_track_index := current_track_index g;
     track_counter := track_counter g; state := state g; data := data g;
     _actions := _actions g; _iteration_context := context |}.

Definition clear_iteration_context (g : ReaperDSLGrammar) : ReaperDSLGrammar :=
  set_iteration_context [] g.

Definition store (name : string) (v : value) (g : ReaperDSLGrammar)
  : ReaperDSLGrammar :=
  {| current_track_index := current_track_index g;
     track_counter := track_counter g; state := state g;
     data := dict_set (data g) name v;
     _actions := _actions g; _iteration_context := _iteration_context g |}.

(** A Python callable applied to one item: it may read and write the grammar
    and its interpreter, and returns or raises.  The list being iterated is
    not among the things it can change. *)
Definition callable : Type :=
  value -> ReaperDSLGrammar -> result value * ReaperDSLGrammar.

(** What [hasattr] / [getattr] find under a name on the grammar object. *)
Inductive attr : Type :=
| AttrMissing
| AttrData (v : value)
| AttrCallable (f : callable).

(** What the embedding takes from outside the repository: Python's own
    binary operators and attribute lookup on built-in values, the attributes
    found on the grammar's class (the methods of [ReaperDSLGrammar] as the
    [@method] decorator leaves them, and what grammar_school's [Grammar]
    provides), and the base interpreter's treatment of a predicate that is
    not an AST node. *)
Class Builtins : Type := {
  py_add : value -> value -> result value;
  py_sub : value -> value -> result value;
  py_mul : value -> value -> result value;
  py_truediv : value -> value -> result value;
  py_eq : value -> value -> result value;
  py_ne : value -> value -> result value;
  py_lt : value -> value -> result value;
  py_gt : value -> value -> result value;
  py_le : value -> value -> result value;
  py_ge : value -> value -> result value;
  py_getattr : value -> string -> option value;
  class_attr : string -> attr;
  evaluate_raw : value -> result value
}.

(** [s.isdigit()] and [int(s)] on ASCII strings. *)
Definition digit_of (c : ascii) : option Z :=
  let n := Z.of_nat (nat_of_ascii c) in
  if (48 <=? n) && (n <=? 57) then Some (n - 48) else None.

Fixpoint all_digits (s : string) : bool :=
  match s with
  | EmptyString => true
  | String c rest =>
      match digit_of c with Some _ => all_digits rest | None => false end
  end.

Definition isdigit (s : string) : bool :=
  match s with
  | EmptyString => false
  | _ => all_digits s
  end.

Fixpoint int_of_digits (s : string) (acc : Z) : Z :=
  match s with
  | EmptyString => acc
  | String c rest =>
      int_of_digits rest
        (10 * acc + match digit_of c with Some d => d | None => 0 end)
  end.

Section Evaluator.
Context {B : Builtins}.

(** [getattr(self.dsl, name)]: instance attributes first, then the class. *)
Definition getattr_dsl (name : string) (g : ReaperDSLGrammar) : attr :=
  if String.eqb name "current_track_index" then
    AttrData (VInt (current_track_index g))
  else if String.eqb name "track_counter" then
    AttrData (VInt (track_counter g))
  else if String.eqb name "state" then
    AttrData (match state g with Some st => VDict st | None => VNone end)
  else if String.eqb name "data" then AttrData (VDict (data g))
  else if String.eqb name "_actions" then
    AttrData (VList (map VDict (_actions g)))
  else if String.eqb name "interpreter" then
    AttrData (VObject "ReaperFunctionalInterpreter")
  else class_attr name.

(** The navigation loop of [_evaluate_property_access]. *)
Fixpoint navigate (cur : value) (properties : list string) : result value :=
  match properties with
  | [] => Ok cur
  | prop_name :: rest =>
      match py_getattr cur prop_name with
      | Some v => navigate v rest
      | None =>
          match cur with
          | VDict d => navigate (dict_get_default d prop_name VNone) rest
          | VList l =>
              if isdigit prop_name then
                match nth_error l (Z.to_nat (int_of_digits prop_name 0)) with
                | Some v => navigate v rest
                | None => Err (Raise IndexError "list index out of range")
                end
              else
                Err (Raise ValueError
                       ("Property '" ++ prop_name ++ "' not found on list"))
          | _ =>
              Err (Raise ValueError
                     ("Property '" ++ prop_name ++ "' not found on "
                      ++ type_name cur))
          end
      end
  end.

Definition _evaluate_property_access (g : ReaperDSLGrammar)
    (object_name : string) (properties : list string) : result value :=
  do obj <-
    match dict_get (_iteration_context g) object_name with
    | Some v => Ok v
    | None =>
        let obj := match getattr_dsl object_name g with
                   | AttrMissing => VNone
                   | AttrData v => v
                   | AttrCallable _ => VObject "method"
                   end in
        match obj with
        | VNone =>
            match dict_get (data g) object_name with
            | None | Some VNone =>
                Err (Raise ValueError ("Unknown object: " ++ object_name))
            | Some v => Ok v
            end
        | _ => Ok obj
        end
    end;
  navigate obj properties.

(** The table of [_evaluate_expression]. *)
Definition operators (op : string)
  : option (value -> value -> result value) :=
  if String.eqb op "+" then Some py_add
  else if String.eqb op "-" then Some py_sub
  else if String.eqb op "*" then Some py_mul
  else if String.eqb op "/" then Some py_truediv
  else if String.eqb op "==" then Some py_eq
  else if String.eqb op "!=" then Some py_ne
  else if String.eqb op "<" then Some py_lt
  else if String.eqb op ">" then Some py_gt
  else if String.eqb op "<=" then Some py_le
  else if String.eqb op ">=" then Some py_ge
  else if String.eqb op "and" then
    Some (fun a b => Ok (if truthy a then b else a))
  else if String.eqb op "or" then
    Some (fun a b => Ok (if truthy a then a else b))
  else None.

(** [_evaluate_expression], with [self._evaluate_value] as a parameter: the
    method is looked up on [self] at each call.  A right operand that is
    present is a truthy node object, so [if expr.right] only tells a present
    operand from an absent one. *)
Definition evaluate_expression_with (evaluate_value : node -> result value)
    (left : node) (operator : option string) (right : option node)
  : result value :=
  match operator with
  | None => evaluate_value left
  | Some op =>
      do left_val <- evaluate_value left;
      do right_val <- match right with
                      | Some r => evaluate_value r
                      | None => Ok VNone
                      end;
      match operators op with
      | Some f => f left_val right_val
      | None => Err (Raise ValueError ("Unknown operator: " ++ op))
      end
  end.

(** Modelled from the spec: [_evaluate_value] is inherited from
    grammar_school's [Interpreter]; it returns a literal's value, hands a
    property access to [_evaluate_property_access] and an expression to
    [_evaluate_expression], the two methods this class overrides. *)
Fixpoint _evaluate_value (g : ReaperDSLGrammar) (n : node) : result value :=
  match n with
  | Value v => Ok v
  | PropertyAccess object_name properties =>
      _evaluate_property_access g object_name properties
  | Expression l operator r =>
      evaluate_expression_with (_evaluate_value g) l operator r
  end.

Definition _evaluate_expression (g : ReaperDSLGrammar)
    (left : node) (operator : option string) (right : option node)
  : result value :=
  evaluate_expression_with (_evaluate_value g) left operator right.

End Evaluator.

(** The iteration variable [filter], [map] and [for_each] derive inline:
    [collection.rstrip("s").rstrip("_chain")]. *)
Definition iter_var_of (collection : string) : string :=
  rstrip (rstrip collection "s") "_chain".

(** The helper method of the same purpose (no caller in the module). *)
Definition _get_iter_var_from_collection (collection_name : string) : string :=
  let var := rstrip (rstrip (rstrip collection_name "s") "_chain") "_list" in
  if String.eqb var EmptyString || (Z.of_nat (String.length var) <? 2) then "item"
  else var.

(** The derivation in the specification's words, for comparison: strip one
    trailing [s], then a trailing [_chain] or [_list] suffix if present, and
    default to [item] when fewer than two characters remain. *)
Definition ends_with (s suffix : string) : bool :=
  let n := String.length s in
  let k := String.length suffix in
  Nat.leb k n && String.eqb (String.substring (n - k) k s) suffix.

Definition remove_suffix (s suffix : string) : string :=
  if ends_with s suffix
  then String.substring 0 (String.length s - String.length suffix) s
  else s.

Definition iter_var_spec (collection_name : string) : string :=
  let var := remove_suffix collection_name "s" in
  let var := if ends_with var "_chain" then remove_suffix var "_chain"
             else remove_suffix var "_list" in
  if Z.of_nat (String.length var) <? 2 then "item" else var.

(** A collection argument is a name ([str]) or the collection itself. *)
Definition resolve_collection (iter_var_for : string -> string)
    (collection : value) (g : ReaperDSLGrammar) : value * string :=
  match collection with
  | VStr name => (dict_get_default (data g) name (VList []), iter_var_for name)
  | _ => (collection, "item")
  end.

Definition not_a_list {A : Type} (actual_collection : value) : result A :=
  Err (Raise ValueError
         ("Collection must be a list, got " ++ type_name actual_collection)).

(** [interpreter.set_iteration_context({iter_var: item})], then the body
    under [try], then [finally: interpreter.clear_iteration_context()]. *)
Definition with_iteration_context {A : Type} (iter_var : string) (item : value)
    (body : ReaperDSLGrammar -> result A * ReaperDSLGrammar)
    (g : ReaperDSLGrammar) : result A * ReaperDSLGrammar :=
  let (r, g') := body (set_iteration_context [(iter_var, item)] g) in
  (r, clear_iteration_context g').

(** The predicate argument of [filter], by the [isinstance] chain. *)
Inductive predicate : Type :=
| PredNode (n : node)
| PredCallable (f : callable)
| PredBool (b : bool)
| PredOther (v : value).

(** The function argument of [map] and [for_each]. *)
Inductive func_arg : Type :=
| FuncStr (s : string)
| FuncCallable (f : callable)
| FuncValue (v : value).

Section Combinators.
Context {B : Builtins}.

Definition eval_predicate (p : predicate) (item : value)
    (g : ReaperDSLGrammar) : result value * ReaperDSLGrammar :=
  match p with
  | PredNode n => (_evaluate_value g n, g)
  | PredCallable f => f item g
  | PredBool b => (Ok (VBool b), g)
  | PredOther v => (evaluate_raw v, g)
  end.

Fixpoint filter_loop (iter_var : string) (p : predicate) (items : list value)
    (filtered : list value) (g : ReaperDSLGrammar)
  : result (list value) * ReaperDSLGrammar :=
  match items with
  | [] => (Ok filtered, g)
  | item :: rest =>
      let (r, g') :=
        with_iteration_context iter_var item (eval_predicate p item) g in
      match r with
      | Ok res =>
          filter_loop iter_var p rest
            (if truthy res then filtered ++ [item] else filtered) g'
      | Err e =>
          if is_Exception e then filter_loop iter_var p rest filtered g'
          else (Err e, g')
      end
  end.

Definition filter (collection : value) (p : predicate) (g : ReaperDSLGrammar)
  : result (list value) * ReaperDSLGrammar :=
  let (actual_collection, iter_var) :=
    resolve_collection iter_var_of collection g in
  match actual_collection with
  | VList items => filter_loop iter_var p items [] g
  | _ => (not_a_list actual_collection, g)
  end.

(** The "Resolve function" block shared by [map] and [for_each]. *)
Definition resolve_function (func : func_arg) (g : ReaperDSLGrammar)
  : result callable :=
  match func with
  | FuncStr s =>
      let func_name := lstrip s "@" in
      match getattr_dsl func_name g with
      | AttrMissing => Err (Raise ValueError ("Unknown function: " ++ func_name))
      | AttrData v =>
          Err (Raise ValueError
                 ("Function must be callable, got " ++ type_name v))
      | AttrCallable f => Ok f
      end
  | FuncCallable f => Ok f
  | FuncValue v =>
      Err (Raise ValueError ("Function must be callable, got " ++ type_name v))
  end.

Fixpoint map_loop (iter_var : string) (func : callable) (items : list value)
    (mapped : list value) (g : ReaperDSLGrammar)
  : result (list value) * ReaperDSLGrammar :=
  match items with
  | [] => (Ok mapped, g)
  | item :: rest =>
      let (r, g') := with_iteration_context iter_var item (func item) g in
      match r with
      | Ok res => map_loop iter_var func rest (mapped ++ [res]) g'
      | Err e =>
          if is_Exception e then map_loop iter_var func rest mapped g'
          else (Err e, g')
      end
  end.

Definition map (func : func_arg) (collection : value) (g : ReaperDSLGrammar)
  : result (list value) * ReaperDSLGrammar :=
  let (actual_collection, iter_var) :=
    resolve_collection iter_var_of collection g in
  match actual_collection with
  | VList items =>
      match resolve_function func g with
      | Ok f => map_loop iter_var f items [] g
      | Err e => (Err e, g)
      end
  | _ => (not_a_list actual_collection, g)
  end.

Fixpoint for_each_loop (iter_var : string) (action_func : callable)
    (items : list value) (g : ReaperDSLGrammar)
  : result unit * ReaperDSLGrammar :=
  match items with
  | [] => (Ok tt, g)
  | item :: rest =>
      let (r, g') :=
        with_iteration_context iter_var item (action_func item) g in
      match r with
      | Ok _ => for_each_loop iter_var action_func rest g'
      | Err e =>
          if is_Exception e then for_each_loop iter_var action_func rest g'
          else (Err e, g')
      end
  end.

Definition for_each (collection : value) (action_func : func_arg)
    (g : ReaperDSLGrammar) : result unit * ReaperDSLGrammar :=
  let (actual_collection, iter_var) :=
    resolve_collection iter_var_of collection g in
  match actual_collection with
  | VList items =>
      match resolve_function action_func g with
      | Ok f => for_each_loop iter_var f items g
      | Err e => (Err e, g)
      end
  | _ => (not_a_list actual_collection, g)
  end.

End Combinators.

End Functional.

(* ================================================================== *)
(** ** Sample inputs *)
(* ================================================================== *)

Module Samples.
Import Py Dsl.

Definition track_record (i : Z) (name : string) (selected : bool) : value :=
  VDict [("index", VInt i); ("name", VStr name); ("selected", VBool selected);
         ("fx", VList []); ("clips", VList [])].

(** A snapshot with three tracks, the second one selected, under the
    optional ["state"] wrapper. *)
Definition snapshot : dict :=
  [("state", VDict [("tracks", VList [track_record 0 "Drums" false;
                                       track_record 1 "FX" true;
                                       track_record 2 "Bass" false])])].

(** The same tracks with nothing selected, without the wrapper. *)
Definition snapshot_none_selected : dict :=
  [("tracks", VList [track_record 0 "Drums" false;
                     track_record 1 "FX" false])].

Definition fresh : DslParser.MagdaDSLGrammar :=
  DslParser.set_state snapshot DslParser.__init__.

Definition fresh_unselected : DslParser.MagdaDSLGrammar :=
  DslParser.set_state snapshot_none_selected DslParser.__init__.

Definition afresh : ActionParadigm.MagdaDSLGrammar :=
  ActionParadigm.set_state snapshot
    (ActionParadigm.__init__ (Some ActionParadigm.collector_init) true).

Definition plain_track (name : string) : call :=
  Track None (Some name) None None None.

End Samples.

(* ================================================================== *)
(** ** Properties of dsl_parser.py *)
(* ================================================================== *)

Section DictFacts.
Import Py.

Lemma dict_get_set_same (d : dict) (k : string) (v : value) :
  dict_get (dict_set d k v) k = Some v.
Proof.
  induction d as [|[k' v'] rest IH]; simpl.
  - now rewrite String.eqb_refl.
  - destruct (String.eqb k' k) eqn:E; simpl; rewrite E; [reflexivity|exact IH].
Qed.

Lemma dict_get_set_other (d : dict) (k k' : string) (v : value) :
  String.eqb k k' = false ->
  dict_get (dict_set d k v) k' = dict_get d k'.
Proof.
  intros Hne. induction d as [|[k0 v0] rest IH]; simpl.
  - now rewrite Hne.
  - destruct (String.eqb k0 k) eqn:E; simpl.
    + apply String.eqb_eq in E; subst k0. now rewrite Hne.
    + now rewrite IH.
Qed.

End DictFacts.

Section DslParserFacts.
Import Py Dsl DslParser.

Lemma selected_index_of_snapshot :
  _get_selected_track_index Samples.fresh = Ok 1
  /\ _get_selected_track_index Samples.fresh_unselected = Ok (-1)
  /\ _get_selected_track_index __init__ = Ok (-1).
Proof. repeat split; reflexivity. Qed.

(** A creation call is total and its effect is fixed by [track_counter]. *)
Lemma track_plain_creation instrument name selected g :
  is_True selected = false ->
  track instrument name None None selected g =
    Ok {| actions := actions g ++
            [dict_set (set_opt_str
                         (set_opt_str [("action", VStr "create_track")]
                                      "instrument" instrument) "name" name)
                      "index" (VInt (track_counter g))];
          current_track_index := track_counter g;
          track_counter := track_counter g + 1;
          state := state g |}.
Proof. intros Hsel. unfold track. rewrite Hsel. reflexivity. Qed.

Lemma track_indexed_creation instrument name selected k g :
  is_True selected = false ->
  track instrument name (Some k) None selected g =
    Ok {| actions := actions g ++
            [dict_set (set_opt_str
                         (set_opt_str [("action", VStr "create_track")]
                                      "instrument" instrument) "name" name)
                      "index" (VInt k)];
          current_track_index := k;
          track_counter := k + 1;
          state := state g |}.
Proof. intros Hsel. unfold track. rewrite Hsel. reflexivity. Qed.

(** Only a creation call moves the counter. *)
Lemma handle_counter c g g' :
  handle c g = Ok g' ->
  is_indexed_creation c = false ->
  track_counter g' =
    track_counter g + (if is_plain_creation c then 1 else 0).
Proof.
  intros H Hidx. destruct c; simpl in *.
  - unfold track in H.
    destruct id as [i|].
    + inversion H; subst; simpl. destruct index; simpl; lia.
    + destruct (is_True selected) eqn:Hs.
      * destruct (_get_selected_track_index g) as [si|e]; simpl in H;
          [|discriminate].
        destruct (si >=? 0); [|discriminate].
        inversion H; subst; simpl. destruct index; simpl; lia.
      * destruct index as [k|]; simpl in Hidx; [discriminate|].
        inversion H; subst; simpl. reflexivity.
  - unfold new_clip in H.
    destruct (current_track_index g <? 0).
    + destruct (_get_selected_track_index g) as [si|e]; simpl in H;
        [|discriminate].
      destruct (si <? 0); simpl in H; [discriminate|].
      destruct bar, start, position; simpl in H;
        try discriminate; inversion H; subst; simpl; lia.
    + simpl in H.
      destruct bar, start, position; simpl in H;
        try discriminate; inversion H; subst; simpl; lia.
  - unfold add_midi in H. destruct (current_track_index g <? 0);
      [discriminate|]. inversion H; subst; simpl; lia.
  - unfold add_fx in H. destruct (current_track_index g <? 0);
      [discriminate|].
    destruct fxname, instrument; simpl in H;
      try discriminate; inversion H; subst; simpl; lia.
  - unfold set_volume, set_field in H.
    destruct (current_track_index g <? 0); [discriminate|].
    inversion H; subst; simpl; lia.
  - unfold set_pan, set_field in H.
    destruct (current_track_index g <? 0); [discriminate|].
    inversion H; subst; simpl; lia.
  - unfold set_mute, set_field in H.
    destruct (current_track_index g <? 0); [discriminate|].
    inversion H; subst; simpl; lia.
  - unfold set_solo, set_field in H.
    destruct (current_track_index g <? 0); [discriminate|].
    inversion H; subst; simpl; lia.
  - unfold set_name, set_field in H.
    destruct (current_track_index g <? 0); [discriminate|].
    inversion H; subst; simpl; lia.
Qed.

Lemma count_plain_cons c prog :
  count_plain (c :: prog) =
    (if is_plain_creation c then 1 else 0) + count_plain prog.
Proof.
  unfold count_plain. cbn [List.filter].
  destruct (is_plain_creation c); cbn [List.length];
    [rewrite Nat2Z.inj_succ|]; lia.
Qed.

Lemma execute_counter prog : forall g g',
  Forall (fun c => is_indexed_creation c = false) prog ->
  execute prog g = (g', None) ->
  track_counter g' = track_counter g + count_plain prog.
Proof.
  induction prog as [|c rest IH]; intros g g' Hall Hex.
  - simpl in Hex. inversion Hex; subst. unfold count_plain; simpl; lia.
  - inversion Hall as [|? ? Hc Hrest]; subst.
    simpl in Hex. destruct (handle c g) as [g1|e] eqn:Hh; [|discriminate].
    rewrite (IH g1 g' Hrest Hex), (handle_counter c g g1 Hh Hc),
      count_plain_cons.
    lia.
Qed.

(** C5: counting from a reset grammar, a program without explicit-index
    creation calls has moved the counter by the number [N-1] of its plain
    creation calls, so the next (the Nth) plain creation call binds reference
    [N-1], records that index in its [create_track] action and leaves the
    counter at [N]; a creation call with explicit index [k] binds [k] and
    sets the counter to [k+1], and a plain creation call right after it
    binds [k+1]. *)
Theorem track_creation_counter :
  forall (prog : list call) (g0 g : MagdaDSLGrammar)
         (instrument name : option string) (selected : option bool) (k : Z),
    is_True selected = false ->
    Forall (fun c => is_indexed_creation c = false) prog ->
    execute prog (reset g0) = (g, None) ->
    (exists g1 a,
        track instrument name None None selected g = Ok g1
        /\ current_track_index g1 = count_plain prog
        /\ track_counter g1 = count_plain prog + 1
        /\ actions g1 = actions g ++ [a]
        /\ dict_get a "action" = Some (VStr "create_track")
        /\ dict_get a "index" = Some (VInt (count_plain prog)))
    /\ (exists g2 g3,
        track instrument name (Some k) None selected g = Ok g2
        /\ current_track_index g2 = k
        /\ track_counter g2 = k + 1
        /\ track instrument name None None selected g2 = Ok g3
        /\ current_track_index g3 = k + 1
        /\ track_counter g3 = k + 2).
Proof.
  intros prog g0 g instrument name selected k Hsel Hall Hex.
  pose proof (execute_counter prog (reset g0) g Hall Hex) as Hc.
  simpl in Hc.
  split.
  - eexists. eexists.
    rewrite (track_plain_creation instrument name selected g Hsel).
    split; [reflexivity|]. simpl.
    repeat split; try lia.
    + rewrite dict_get_set_other by reflexivity.
      destruct instrument, name; reflexivity.
    + rewrite dict_get_set_same. f_equal. f_equal. lia.
  - eexists. eexists.
    split; [exact (track_indexed_creation instrument name selected k g Hsel)|].
    split; [reflexivity|]. split; [reflexivity|].
    split; [apply track_plain_creation; exact Hsel|].
    simpl. split; [reflexivity|lia].
Qed.

(** Three plain creation calls with a clip call in between: the fourth plain
    call binds reference 3. *)
Lemma track_creation_counter_witness :
  let prog := [Samples.plain_track "a"; Samples.plain_track "b";
               NewClip (Some 1) None None None None None;
               Samples.plain_track "c"] in
  exists g1,
    track None (Some "d") None None None
          (fst (execute prog (reset Samples.fresh))) = Ok g1
    /\ current_track_index g1 = 3.
Proof.
  intros prog.
  destruct (track_creation_counter prog Samples.fresh
              (fst (execute prog (reset Samples.fresh)))
              None (Some "d") None 5 eq_refl
              ltac:(repeat constructor) eq_refl)
    as [[g1 [a [H1 [H2 _]]]] _].
  exists g1. split; [exact H1|exact H2].
Defined.

(** C6: on a bound track [new_clip] appends exactly one action.  With [bar]
    it is [create_clip_at_bar] with [length_bars] defaulting to 4, whatever
    [start] and [position] are; without [bar], [start] or else [position]
    gives [create_clip] with that position and [length] defaulting to 4.0;
    with none of the three it raises and the grammar is left as it was. *)
Theorem new_clip_on_bound_track :
  forall (g : MagdaDSLGrammar) (end_ : option float)
         (length_bars : option Z) (length : option float),
    0 <= current_track_index g ->
    let t := VInt (current_track_index g) in
    let len := VFloat (match length with Some l => l | None => 4.0%float end) in
    (forall bar start position,
        new_clip (Some bar) start end_ length_bars length position g =
          Ok (append_action
                [("track", t); ("action", VStr "create_clip_at_bar");
                 ("bar", VInt bar);
                 ("length_bars",
                  VInt (match length_bars with Some n => n | None => 4 end))]
                g))
    /\ (forall start position,
        new_clip None (Some start) end_ length_bars length position g =
          Ok (append_action
                [("track", t); ("action", VStr "create_clip");
                 ("position", VFloat start); ("length", len)] g))
    /\ (forall position,
        new_clip None None end_ length_bars length (Some position) g =
          Ok (append_action
                [("track", t); ("action", VStr "create_clip");
                 ("position", VFloat position); ("length", len)] g))
    /\ new_clip None None end_ length_bars length None g =
         Err (Raise ValueError "clip call must specify bar, start, or position")
    /\ (forall a, actions (append_action a g) = actions g ++ [a]).
Proof.
  intros g end_ length_bars length Hbound t len.
  assert (Hlt : (current_track_index g <? 0) = false) by (apply Z.ltb_ge; lia).
  unfold new_clip. rewrite Hlt. simpl.
  repeat split; intros; reflexivity.
Qed.

(** [new_clip(bar=3, length_bars=4)] and [new_clip(start=2.0)] after
    [track(id=3)]. *)
Lemma new_clip_on_bound_track_witness :
  let g := bind_track 2 Samples.fresh in
  new_clip (Some 3) None None (Some 4) None None g =
    Ok (append_action [("track", VInt 2); ("action", VStr "create_clip_at_bar");
                       ("bar", VInt 3); ("length_bars", VInt 4)] g)
  /\ new_clip None (Some 2.0%float) None None None None g =
    Ok (append_action [("track", VInt 2); ("action", VStr "create_clip");
                       ("position", VFloat 2.0); ("length", VFloat 4.0)] g).
Proof.
  intros g.
  destruct (new_clip_on_bound_track g None (Some 4) None ltac:(simpl; lia))
    as [Hbar _].
  destruct (new_clip_on_bound_track g None None None ltac:(simpl; lia))
    as [_ [Hstart _]].
  split; [exact (Hbar 3 None None)|exact (Hstart 2.0%float None)].
Defined.

End DslParserFacts.

(* ================================================================== *)
(** ** Track context: which handlers fall back to the selected track *)
(* ================================================================== *)

Section TrackContextFacts.
Import Py Dsl.

Definition anchor_given (bar : option Z) (start position : option float)
  : bool :=
  match bar, start, position with
  | None, None, None => false
  | _, _, _ => true
  end.

(** The keys a clip action can carry, in the two grammars. *)
Definition clip_action_keys (keys : list string) : Prop :=
  keys = ["track"; "action"; "bar"; "length_bars"]
  \/ keys = ["track"; "action"; "position"; "length"].

Definition clip_payload_keys (keys : list string) : Prop :=
  keys = ["track"; "bar"; "length_bars"]
  \/ keys = ["track"; "position"; "length"].

Lemma sink_emit_action a g :
  ActionParadigm.sink (ActionParadigm._emit_action a g) =
    ActionParadigm.sink g ++ [a].
Proof.
  unfold ActionParadigm.sink, ActionParadigm._emit_action.
  destruct (ActionParadigm._runtime g) eqn:E; simpl; rewrite ?E; reflexivity.
Qed.

Lemma emit_action_frame a g :
  ActionParadigm.current_track_index (ActionParadigm._emit_action a g) =
    ActionParadigm.current_track_index g
  /\ ActionParadigm.track_counter (ActionParadigm._emit_action a g) =
    ActionParadigm.track_counter g
  /\ ActionParadigm.state (ActionParadigm._emit_action a g) =
    ActionParadigm.state g
  /\ ActionParadigm.data (ActionParadigm._emit_action a g) =
    ActionParadigm.data g.
Proof.
  unfold ActionParadigm._emit_action.
  destruct (ActionParadigm._runtime g); repeat split; reflexivity.
Qed.

(** What [new_clip] does once the track index is known (dsl_parser.py). *)
Lemma new_clip_unbound g i bar start end_ length_bars length position :
  DslParser.current_track_index g < 0 ->
  DslParser._get_selected_track_index g = Ok i ->
  0 <= i ->
  anchor_given bar start position = true ->
  exists a,
    DslParser.new_clip bar start end_ length_bars length position g =
      Ok (DslParser.append_action a g)
    /\ dict_get a "track" = Some (VInt i)
    /\ clip_action_keys (dict_keys a).
Proof.
  intros Hneg Hsel Hi Hanchor.
  unfold DslParser.new_clip.
  replace (DslParser.current_track_index g <? 0) with true
    by (symmetry; apply Z.ltb_lt; exact Hneg).
  rewrite Hsel. simpl.
  replace (i <? 0) with false by (symmetry; apply Z.ltb_ge; exact Hi).
  simpl. unfold clip_action_keys.
  destruct bar as [b|]; [|destruct start as [s|]; [|destruct position as [p|]]];
    simpl; try discriminate;
    eexists; (split; [reflexivity|]); split; try reflexivity; auto.
Qed.

Lemma new_clip_unbound_action g i bar start end_ length_bars length position :
  ActionParadigm.current_track_index g < 0 ->
  ActionParadigm._get_selected_track_index g = Ok i ->
  0 <= i ->
  anchor_given bar start position = true ->
  exists a,
    ActionParadigm.new_clip bar start end_ length_bars length position g =
      Ok (ActionParadigm._emit_action a g)
    /\ dict_get (ActionParadigm.payload a) "track" = Some (VInt i)
    /\ clip_payload_keys (dict_keys (ActionParadigm.payload a)).
Proof.
  intros Hneg Hsel Hi Hanchor.
  unfold ActionParadigm.new_clip.
  replace (ActionParadigm.current_track_index g <? 0) with true
    by (symmetry; apply Z.ltb_lt; exact Hneg).
  rewrite Hsel. simpl.
  replace (i <? 0) with false by (symmetry; apply Z.ltb_ge; exact Hi).
  simpl. unfold clip_payload_keys.
  destruct bar as [b|]; [|destruct start as [s|]; [|destruct position as [p|]]];
    simpl; try discriminate;
    eexists; (split; [reflexivity|]); split; try reflexivity; auto.
Qed.

(** Without a bound track the seven other handlers raise at their guard,
    whatever the snapshot holds. *)
Lemma guarded_handlers_raise g :
  DslParser.current_track_index g < 0 ->
  (forall notes note,
      DslParser.add_midi notes note g =
        Err (Raise ValueError "No track context for midi call"))
  /\ (forall fxname instrument,
      DslParser.add_fx fxname instrument g =
        Err (Raise ValueError "No track context for FX call"))
  /\ (forall v, DslParser.set_volume v g =
        Err (Raise ValueError "No track context for volume call"))
  /\ (forall v, DslParser.set_pan v g =
        Err (Raise ValueError "No track context for pan call"))
  /\ (forall v, DslParser.set_mute v g =
        Err (Raise ValueError "No track context for mute call"))
  /\ (forall v, DslParser.set_solo v g =
        Err (Raise ValueError "No track context for solo call"))
  /\ (forall v, DslParser.set_name v g =
        Err (Raise ValueError "No track context for name call")).
Proof.
  intros Hneg.
  assert (H : (DslParser.current_track_index g <? 0) = true)
    by (apply Z.ltb_lt; exact Hneg).
  unfold DslParser.add_midi, DslParser.add_fx, DslParser.set_volume,
    DslParser.set_pan, DslParser.set_mute, DslParser.set_solo,
    DslParser.set_name, DslParser.set_field.
  rewrite H. repeat split; intros; reflexivity.
Qed.

Lemma guarded_handlers_raise_action g :
  ActionParadigm.current_track_index g < 0 ->
  (forall notes note,
      ActionParadigm.add_midi notes note g =
        Err (Raise ValueError "No track context for midi call"))
  /\ (forall fxname instrument,
      ActionParadigm.add_fx fxname instrument g =
        Err (Raise ValueError "No track context for FX call"))
  /\ (forall v, ActionParadigm.set_volume v g =
        Err (Raise ValueError "No track context for volume call"))
  /\ (forall v, ActionParadigm.set_pan v g =
        Err (Raise ValueError "No track context for pan call"))
  /\ (forall v, ActionParadigm.set_mute v g =
        Err (Raise ValueError "No track context for mute call"))
  /\ (forall v, ActionParadigm.set_solo v g =
        Err (Raise ValueError "No track context for solo call"))
  /\ (forall v, ActionParadigm.set_name v g =
        Err (Raise ValueError "No track context for name call")).
Proof.
  intros Hneg.
  assert (H : (ActionParadigm.current_track_index g <? 0) = true)
    by (apply Z.ltb_lt; exact Hneg).
  unfold ActionParadigm.add_midi, ActionParadigm.add_fx,
    ActionParadigm.set_volume, ActionParadigm.set_pan,
    ActionParadigm.set_mute, ActionParadigm.set_solo,
    ActionParadigm.set_name, ActionParadigm.set_field.
  rewrite H. repeat split; intros; reflexivity.
Qed.

(** C1 (as amended): with no track bound, [new_clip] behaves as it would on
    the snapshot's selected track, and raises its no-track-context error
    exactly when the selected index is negative; the binding itself stays as
    it was.  The seven other track-scoped handlers do not consult the
    snapshot: unbound, they raise their no-track-context error. *)
Theorem track_fallback_only_in_new_clip :
  forall (g : DslParser.MagdaDSLGrammar),
    DslParser.current_track_index g < 0 ->
    (forall bar start end_ length_bars length position,
        DslParser.new_clip bar start end_ length_bars length position g =
          match DslParser._get_selected_track_index g with
          | Err e => Err e
          | Ok i =>
              if i <? 0 then
                Err (Raise ValueError
                  "No track context for clip call and no selected track found")
              else
                match DslParser.new_clip bar start end_ length_bars length
                        position (DslParser.bind_track i g) with
                | Ok g' =>
                    Ok (DslParser.bind_track
                          (DslParser.current_track_index g) g')
                | Err e => Err e
                end
          end)
    /\ (forall notes note,
        DslParser.add_midi notes note g =
          Err (Raise ValueError "No track context for midi call"))
    /\ (forall fxname instrument,
        DslParser.add_fx fxname instrument g =
          Err (Raise ValueError "No track context for FX call"))
    /\ (forall v, DslParser.set_volume v g =
          Err (Raise ValueError "No track context for volume call"))
    /\ (forall v, DslParser.set_pan v g =
          Err (Raise ValueError "No track context for pan call"))
    /\ (forall v, DslParser.set_mute v g =
          Err (Raise ValueError "No track context for mute call"))
    /\ (forall v, DslParser.set_solo v g =
          Err (Raise ValueError "No track context for solo call"))
    /\ (forall v, DslParser.set_name v g =
          Err (Raise ValueError "No track context for name call")).
Proof.
  intros g Hneg. split; [|exact (guarded_handlers_raise g Hneg)].
  intros bar start end_ length_bars length position.
  unfold DslParser.new_clip at 1.
  replace (DslParser.current_track_index g <? 0) with true
    by (symmetry; apply Z.ltb_lt; exact Hneg).
  destruct (DslParser._get_selected_track_index g) as [i|e]; simpl;
    [|reflexivity].
  destruct (i <? 0) eqn:Ei; simpl; [reflexivity|].
  unfold DslParser.new_clip. simpl. rewrite Ei. simpl.
  destruct bar as [b|]; [|destruct start as [s|]; [|destruct position as [p|]]];
    reflexivity.
Qed.

(** In the three-track snapshot (track 1 selected) with nothing bound,
    [new_clip(bar=2)] lands on track 1. *)
Lemma track_fallback_only_in_new_clip_witness :
  DslParser.new_clip (Some 2) None None None None None Samples.fresh =
    Ok (DslParser.append_action
          [("track", VInt 1); ("action", VStr "create_clip_at_bar");
           ("bar", VInt 2); ("length_bars", VInt 4)] Samples.fresh).
Proof.
  destruct (track_fallback_only_in_new_clip Samples.fresh
              ltac:(simpl; lia)) as [Hclip _].
  rewrite (Hclip (Some 2) None None None None None).
  reflexivity.
Defined.

(** C1 as stated fails for the handlers other than [new_clip]: in the same
    snapshot, with track 1 selected and nothing bound, [add_midi], [add_fx]
    and [set_volume] raise instead of using track 1. *)
Lemma add_midi_does_not_fall_back :
  DslParser.current_track_index Samples.fresh = -1
  /\ DslParser._get_selected_track_index Samples.fresh = Ok 1
  /\ DslParser.add_midi None None Samples.fresh =
       Err (Raise ValueError "No track context for midi call")
  /\ DslParser.add_fx (Some "ReaEQ") None Samples.fresh =
       Err (Raise ValueError "No track context for FX call")
  /\ DslParser.set_volume (-3.0)%float Samples.fresh =
       Err (Raise ValueError "No track context for volume call").
Proof. repeat split; reflexivity. Qed.

(** C9: a [new_clip] that resolves its track through the selected-track
    fallback puts the selected index in the one action it emits and leaves
    [current_track_index] as it was, so a track-scoped call right after it
    still raises for lack of a track; in both grammars. *)
Theorem new_clip_fallback_keeps_unbound :
  forall (i : Z) (bar : option Z) (start end_ : option float)
         (length_bars : option Z) (length position : option float),
    0 <= i ->
    anchor_given bar start position = true ->
    (forall g,
        DslParser.current_track_index g < 0 ->
        DslParser._get_selected_track_index g = Ok i ->
        exists a g',
          DslParser.new_clip bar start end_ length_bars length position g
            = Ok g'
          /\ DslParser.actions g' = DslParser.actions g ++ [a]
          /\ dict_get a "track" = Some (VInt i)
          /\ DslParser.current_track_index g' = DslParser.current_track_index g
          /\ (forall notes note,
                DslParser.add_midi notes note g' =
                  Err (Raise ValueError "No track context for midi call"))
          /\ (forall v,
                DslParser.set_volume v g' =
                  Err (Raise ValueError "No track context for volume call")))
    /\ (forall g,
        ActionParadigm.current_track_index g < 0 ->
        ActionParadigm._get_selected_track_index g = Ok i ->
        exists a g',
          ActionParadigm.new_clip bar start end_ length_bars length position g
            = Ok g'
          /\ ActionParadigm.sink g' = ActionParadigm.sink g ++ [a]
          /\ dict_get (ActionParadigm.payload a) "track" = Some (VInt i)
          /\ ActionParadigm.current_track_index g' =
               ActionParadigm.current_track_index g
          /\ (forall notes note,
                ActionParadigm.add_midi notes note g' =
                  Err (Raise ValueError "No track context for midi call"))
          /\ (forall v,
                ActionParadigm.set_volume v g' =
                  Err (Raise ValueError "No track context for volume call"))).
Proof.
  intros i bar start end_ length_bars length position Hi Hanchor. split.
  - intros g Hneg Hsel.
    destruct (new_clip_unbound g i bar start end_ length_bars length position
                Hneg Hsel Hi Hanchor) as [a [Hrun [Htrack _]]].
    exists a, (DslParser.append_action a g).
    assert (Hneg' : DslParser.current_track_index
                      (DslParser.append_action a g) < 0) by exact Hneg.
    destruct (guarded_handlers_raise _ Hneg') as [Hmidi [_ [Hvol _]]].
    repeat split; auto.
  - intros g Hneg Hsel.
    destruct (new_clip_unbound_action g i bar start end_ length_bars length
                position Hneg Hsel Hi Hanchor) as [a [Hrun [Htrack _]]].
    exists a, (ActionParadigm._emit_action a g).
    destruct (emit_action_frame a g) as [Hcur _].
    assert (Hneg' : ActionParadigm.current_track_index
                      (ActionParadigm._emit_action a g) < 0)
      by (rewrite Hcur; exact Hneg).
    destruct (guarded_handlers_raise_action _ Hneg') as [Hmidi [_ [Hvol _]]].
    repeat split; auto using sink_emit_action.
Qed.

(** [new_clip(bar=2)] then [add_midi()] on the three-track snapshot, in
    both grammars. *)
Lemma new_clip_fallback_keeps_unbound_witness :
  (exists a g',
      DslParser.new_clip (Some 2) None None None None None Samples.fresh
        = Ok g'
      /\ DslParser.actions g' = DslParser.actions Samples.fresh ++ [a]
      /\ dict_get a "track" = Some (VInt 1)
      /\ DslParser.current_track_index g' = -1
      /\ DslParser.add_midi None None g' =
           Err (Raise ValueError "No track context for midi call"))
  /\ (exists a g',
      ActionParadigm.new_clip (Some 2) None None None None None Samples.afresh
        = Ok g'
      /\ ActionParadigm.sink g' = [a]
      /\ dict_get (ActionParadigm.payload a) "track" = Some (VInt 1)
      /\ ActionParadigm.current_track_index g' = -1
      /\ ActionParadigm.add_midi None None g' =
           Err (Raise ValueError "No track context for midi call")).
Proof.
  destruct (new_clip_fallback_keeps_unbound 1 (Some 2) None None None None None
              ltac:(lia) eq_refl) as [H HA].
  destruct (H Samples.fresh ltac:(simpl; lia) eq_refl)
    as [a [g' [Hrun [Hacts [Htrack [Hcur [Hmidi _]]]]]]].
  destruct (HA Samples.afresh ltac:(simpl; lia) eq_refl)
    as [b [h' [Hrun' [Hsink [Htrack' [Hcur' [Hmidi' _]]]]]]].
  split; [exists a, g'|exists b, h']; repeat split; auto.
Defined.

(** C10: [new_clip] does not read its [end] argument.  Two calls that differ
    only there give the same result on every grammar, in both modules, and
    the action of a successful call carries one of the two fixed key sets,
    neither of which contains [end]. *)
Theorem new_clip_ignores_end :
  forall (bar : option Z) (start e1 e2 : option float)
         (length_bars : option Z) (length position : option float),
    (forall g,
        DslParser.new_clip bar start e1 length_bars length position g =
          DslParser.new_clip bar start e2 length_bars length position g
        /\ match DslParser.new_clip bar start e1 length_bars length position g
           with
           | Ok g' =>
               exists a, g' = DslParser.append_action a g
                         /\ clip_action_keys (dict_keys a)
                         /\ dict_get a "end" = None
           | Err _ => True
           end)
    /\ (forall g,
        ActionParadigm.new_clip bar start e1 length_bars length position g =
          ActionParadigm.new_clip bar start e2 length_bars length position g
        /\ match ActionParadigm.new_clip bar start e1 length_bars length
                   position g with
           | Ok g' =>
               exists a, g' = ActionParadigm._emit_action a g
                         /\ clip_payload_keys
                              (dict_keys (ActionParadigm.payload a))
                         /\ dict_get (ActionParadigm.payload a) "end" = None
           | Err _ => True
           end).
Proof.
  intros bar start e1 e2 length_bars length position. split.
  - intros g. split; [reflexivity|].
    unfold DslParser.new_clip, clip_action_keys.
    destruct (DslParser.current_track_index g <? 0);
      [destruct (DslParser._get_selected_track_index g) as [i|e]; simpl;
       [destruct (i <? 0); simpl|]|simpl];
      destruct bar as [b|];
      try destruct start as [s|]; try destruct position as [p|];
      simpl; auto;
      eexists; (split; [reflexivity|]); split; simpl; auto.
  - intros g. split; [reflexivity|].
    unfold ActionParadigm.new_clip, clip_payload_keys.
    destruct (ActionParadigm.current_track_index g <? 0);
      [destruct (ActionParadigm._get_selected_track_index g) as [i|e]; simpl;
       [destruct (i <? 0); simpl|]|simpl];
      destruct bar as [b|];
      try destruct start as [s|]; try destruct position as [p|];
      simpl; auto;
      eexists; (split; [reflexivity|]); split; simpl; auto.
Qed.

End TrackContextFacts.

(* ================================================================== *)
(** ** The action sink is append-only and follows call order *)
(* ================================================================== *)

Section SinkFacts.
Import Py Dsl ActionParadigm.

(** The kind of action a call is to emit, read off the call alone: none
    for a track reference and for [store]. *)
Definition kind_of_call (c : call) : option string :=
  match c with
  | Track _ _ _ (Some _) _ => None
  | Track _ _ _ None selected =>
      if is_True selected then None else Some "create_track"
  | NewClip (Some _) _ _ _ _ _ => Some "create_clip_at_bar"
  | NewClip None _ _ _ _ _ => Some "create_clip"
  | AddMidi _ _ => Some "add_midi"
  | AddFx (Some _) _ => Some "add_track_fx"
  | AddFx None _ => Some "add_instrument"
  | SetVolume _ => Some "set_track_volume"
  | SetPan _ => Some "set_track_pan"
  | SetMute _ => Some "set_track_mute"
  | SetSolo _ => Some "set_track_solo"
  | SetName _ => Some "set_track_name"
  end.

Definition kinds_of_event (ev : event) : list string :=
  match ev with
  | Handler c => match kind_of_call c with Some k => [k] | None => [] end
  | Store _ _ => []
  end.

(** The calls of a program that ran: all of them, or those before the
    first call that raised. *)
Fixpoint ran (prog : list event) (g : MagdaDSLGrammar) : list event :=
  match prog with
  | [] => []
  | ev :: rest =>
      match handle ev g with
      | Ok g' => ev :: ran rest g'
      | Err _ => []
      end
  end.

(** The two configurations in which [track] and [_emit_action] write to the
    same place: a runtime with the interpreter attached (as the parser
    builds it), or neither. *)
Definition same_sink (g : MagdaDSLGrammar) : Prop :=
  match _runtime g with
  | Some _ => has_interpreter g = true
  | None => has_interpreter g = false
  end.

(** Case analysis on what a handler branches on: its optional arguments,
    the guard on the bound track, the selected-track lookup. *)
Ltac split_handler :=
  repeat (first
    [ match goal with
      | |- context [match ?x with _ => _ end] => is_var x; destruct x
      | |- context [if ?x then _ else _] => is_var x; destruct x
      | |- context [selected_track_index ?s] =>
          destruct (selected_track_index s)
      | |- context [?a <? ?b] => destruct (a <? b)
      | |- context [?a >=? ?b] => destruct (a >=? b)
      end ];
    cbn [_runtime _actions current_track_index track_counter state data
         has_interpreter actions bind is_True]).

(** One call, in such a configuration: the sink keeps what it held and
    gains, at its end, one action of the call's kind, or nothing when the
    call has no kind. *)
Lemma handle_emits_its_kind ev g :
  same_sink g ->
  match handle ev g with
  | Ok g' =>
      same_sink g'
      /\ exists news, sink g' = sink g ++ news
                      /\ List.map kind news = kinds_of_event ev
  | Err _ => True
  end.
Proof.
  destruct g as [rt acts cur cnt st dat hi].
  unfold same_sink. cbn [_runtime has_interpreter].
  destruct rt as [[cacts]|]; intros ->;
    (destruct ev as [c|n v]; [destruct c|]);
    unfold kinds_of_event, kind_of_call, sink, handle, track, new_clip,
      add_midi, add_fx, set_volume, set_pan, set_mute, set_solo, set_name,
      set_field, store, _emit_action, _get_selected_track_index,
      set_runtime, set_actions, collector_execute, is_True;
    cbn [_runtime _actions current_track_index track_counter state data
         has_interpreter actions bind is_True];
    split_handler; auto;
    (split; [reflexivity|]);
    first [ exists []; split; [now rewrite app_nil_r|reflexivity]
          | eexists; split; reflexivity ].
Qed.

Lemma execute_emits_kinds prog : forall g,
  same_sink g ->
  same_sink (fst (execute prog g))
  /\ exists news,
       sink (fst (execute prog g)) = sink g ++ news
       /\ List.map kind news = flat_map kinds_of_event (ran prog g)
       /\ (snd (execute prog g) = None -> ran prog g = prog).
Proof.
  induction prog as [|ev rest IH]; intros g Hg.
  - split; [exact Hg|]. exists []. cbn. rewrite app_nil_r. repeat split.
  - cbn [execute ran]. pose proof (handle_emits_its_kind ev g Hg) as Hstep.
    destruct (handle ev g) as [g1|e].
    + destruct Hstep as [Hg1 [n1 [Hs1 Hk1]]].
      destruct (IH g1 Hg1) as [Hg2 [n2 [Hs2 [Hk2 Hran]]]].
      split; [exact Hg2|].
      exists (n1 ++ n2). rewrite Hs2, Hs1, <- app_assoc.
      split; [reflexivity|]. split.
      * cbn [flat_map]. now rewrite List.map_app, Hk1, Hk2.
      * intros H. now rewrite (Hran H).
    + split; [exact Hg|].
      exists []. cbn. rewrite app_nil_r. repeat split. discriminate.
Qed.

(** A run of [p1 ++ p2] is the run of [p1] followed, unless a call of [p1]
    raised, by the run of [p2]. *)
Lemma execute_events_app p1 p2 : forall g,
  execute (p1 ++ p2) g =
    match execute p1 g with
    | (g1, None) => execute p2 g1
    | (g1, Some e) => (g1, Some e)
    end.
Proof.
  induction p1 as [|ev rest IH]; intros g; [reflexivity|].
  cbn [app execute]. destruct (handle ev g) as [g1|e]; [apply IH|reflexivity].
Qed.

(** The grammar as its constructor leaves it when no runtime is passed, and
    the program [track(instrument="Serum").add_fx(fxname="ReaEQ")]. *)
Definition no_runtime : MagdaDSLGrammar := __init__ None true.

Definition serum_then_eq : list event :=
  [Handler (Track (Some "Serum") None None None None);
   Handler (AddFx (Some "ReaEQ") None)].

(** C8: on a grammar built without a runtime (its interpreter attached)
    the program [track(instrument="Serum").add_fx(fxname="ReaEQ")] runs
    without error, both calls are to emit, yet the sink ends with the
    [add_track_fx] action alone: the [create_track] action of [track] is
    appended nowhere.  Where [track] and [_emit_action] write to the same
    place, the claim holds: a run leaves the sink as it was, followed by one
    action for each call that ran and has a kind, of that kind, in call
    order; and what the calls of [p2] add in a run of [p1 ++ p2] comes
    after all the sink held when [p1] was done. *)
Theorem emissions_follow_calls_unless_track_has_no_runtime :
  (snd (execute serum_then_eq no_runtime) = None
   /\ ran serum_then_eq no_runtime = serum_then_eq
   /\ flat_map kinds_of_event serum_then_eq = ["create_track"; "add_track_fx"]
   /\ sink (fst (execute serum_then_eq no_runtime))
      = [{| kind := "add_track_fx";
            payload := [("track", VInt 0); ("fxname", VStr "ReaEQ")] |}]
   /\ _actions (fst (execute serum_then_eq no_runtime))
      = sink (fst (execute serum_then_eq no_runtime)))
  /\ (forall (prog : list event) (g : MagdaDSLGrammar),
        same_sink g ->
        exists news,
          sink (fst (execute prog g)) = sink g ++ news
          /\ List.map kind news = flat_map kinds_of_event (ran prog g)
          /\ (snd (execute prog g) = None -> ran prog g = prog))
  /\ (forall (p1 p2 : list event) (g : MagdaDSLGrammar),
        same_sink g ->
        snd (execute p1 g) = None ->
        exists news,
          sink (fst (execute (p1 ++ p2) g))
            = sink (fst (execute p1 g)) ++ news
          /\ List.map kind news
             = flat_map kinds_of_event (ran p2 (fst (execute p1 g)))).
Proof.
  split; [repeat split; reflexivity|]. split.
  - intros prog g Hg. exact (proj2 (execute_emits_kinds prog g Hg)).
  - intros p1 p2 g Hg Hp1. rewrite execute_events_app.
    destruct (execute_emits_kinds p1 g Hg) as [Hg1 _].
    destruct (execute p1 g) as [g1 err]. cbn [fst snd] in *. subst err.
    destruct (execute_emits_kinds p2 g1 Hg1) as [_ [news [Hs [Hk _]]]].
    exists news. split; assumption.
Qed.

(** The same program on the parser's grammar: both actions, in order. *)
Lemma emissions_follow_calls_unless_track_has_no_runtime_witness :
  exists news,
    sink (fst (execute serum_then_eq (grammar (parser_init true))))
      = sink (grammar (parser_init true)) ++ news
    /\ List.map kind news
       = flat_map kinds_of_event
                  (ran serum_then_eq (grammar (parser_init true)))
    /\ (snd (execute serum_then_eq (grammar (parser_init true))) = None ->
        ran serum_then_eq (grammar (parser_init true)) = serum_then_eq).
Proof.
  exact (proj1 (proj2 emissions_follow_calls_unless_track_has_no_runtime)
               serum_then_eq (grammar (parser_init true)) eq_refl).
Defined.

(** A program run through the parser: the three actions come back in call
    order, and the two identical [add_fx] calls give two entries. *)
Example parse_dsl_keeps_order :
  snd (parse_dsl
         [Handler (Track (Some "Serum") None None None None);
          Handler (AddFx (Some "ReaEQ") None);
          Store "x" (VInt 1);
          Handler (AddFx (Some "ReaEQ") None)]
         (parser_init true))
  = Ok [[("action", VStr "create_track"); ("instrument", VStr "Serum");
         ("index", VInt 0)];
        [("action", VStr "add_track_fx"); ("track", VInt 0);
         ("fxname", VStr "ReaEQ")];
        [("action", VStr "add_track_fx"); ("track", VInt 0);
         ("fxname", VStr "ReaEQ")]].
Proof. reflexivity. Qed.

End SinkFacts.

(* ================================================================== *)
(** ** The same for the action list of dsl_parser.py *)
(* ================================================================== *)

Section ActionListFacts.
Import Py Dsl DslParser.

Ltac split_guard :=
  repeat (first
    [ match goal with
      | |- context [match ?x with _ => _ end] => is_var x; destruct x
      | |- context [selected_track_index ?s] =>
          destruct (selected_track_index s)
      | |- context [?a <? ?b] => destruct (a <? b)
      | |- context [?a >=? ?b] => destruct (a >=? b)
      end ];
    cbn [actions current_track_index track_counter state bind]).

(** A handler of dsl_parser.py leaves [actions] as it was or appends one
    dict to it. *)
Lemma handle_appends_to_actions c g :
  match handle c g with
  | Ok g' => actions g' = actions g \/ exists a, actions g' = actions g ++ [a]
  | Err _ => True
  end.
Proof.
  destruct g as [acts cur cnt st].
  destruct c;
    unfold handle, track, new_clip, add_midi, add_fx, set_volume, set_pan,
      set_mute, set_solo, set_name, set_field, append_action, bind_track,
      _get_selected_track_index, is_True;
    cbn [actions current_track_index track_counter state bind];
    split_guard; eauto.
Qed.

Lemma execute_extends_actions prog : forall g,
  exists news, actions (fst (execute prog g)) = actions g ++ news
               /\ (List.length news <= List.length prog)%nat.
Proof.
  induction prog as [|c rest IH]; intros g; simpl.
  - exists []. now rewrite app_nil_r.
  - pose proof (handle_appends_to_actions c g) as Hstep.
    destruct (handle c g) as [g1|e]; simpl.
    + destruct (IH g1) as [news [Hnews Hlen]].
      destruct Hstep as [Hsame|[a Ha]].
      * exists news. rewrite Hnews, Hsame. split; [reflexivity|lia].
      * exists (a :: news). rewrite Hnews, Ha, <- app_assoc.
        split; [reflexivity|simpl; lia].
    + exists []. rewrite app_nil_r. split; [reflexivity|simpl; lia].
Qed.

End ActionListFacts.

(* ================================================================== *)
(** ** A sample instance of the built-ins *)
(* ================================================================== *)

(** Python's operators on [None], booleans, integers and strings, enough to
    run the examples: integer arithmetic, string concatenation, equality and
    ordering within these kinds.  Operands the sample does not cover are
    reported by [outside_sample], which is no statement about Python. *)
Module FunctionalSamples.
Import Py Functional.

Definition outside_sample : result value :=
  Err (Raise OtherException "operands outside the sample instance").

Definition as_int (v : value) : option Z :=
  match v with
  | VInt z => Some z
  | VBool b => Some (if b then 1 else 0)
  | _ => None
  end.

Definition is_scalar (v : value) : bool :=
  match v with
  | VNone | VBool _ | VInt _ | VStr _ => true
  | _ => false
  end.

Definition arith (f : Z -> Z -> Z) (a b : value) : result value :=
  match as_int a, as_int b with
  | Some x, Some y => Ok (VInt (f x y))
  | _, _ => outside_sample
  end.

Definition sample_add (a b : value) : result value :=
  match a, b with
  | VStr s, VStr t => Ok (VStr (s ++ t))
  | _, _ => arith Z.add a b
  end.

Definition sample_truediv (a b : value) : result value :=
  match as_int a, as_int b with
  | Some _, Some 0 => Err (Raise ZeroDivisionError "division by zero")
  | _, _ => outside_sample
  end.

Definition sample_equal (a b : value) : option bool :=
  match a, b with
  | VNone, VNone => Some true
  | VStr s, VStr t => Some (String.eqb s t)
  | _, _ =>
      match as_int a, as_int b with
      | Some x, Some y => Some (x =? y)
      | _, _ => if is_scalar a && is_scalar b then Some false else None
      end
  end.

Definition sample_eq (a b : value) : result value :=
  match sample_equal a b with
  | Some r => Ok (VBool r)
  | None => outside_sample
  end.

Definition sample_ne (a b : value) : result value :=
  match sample_equal a b with
  | Some r => Ok (VBool (negb r))
  | None => outside_sample
  end.

Definition order (test : comparison -> bool) (a b : value) : result value :=
  match a, b with
  | VStr s, VStr t => Ok (VBool (test (String.compare s t)))
  | _, _ =>
      match as_int a, as_int b with
      | Some x, Some y => Ok (VBool (test (Z.compare x y)))
      | _, _ => outside_sample
      end
  end.

Definition is_Lt (c : comparison) : bool :=
  match c with Lt => true | _ => false end.
Definition is_Gt (c : comparison) : bool :=
  match c with Gt => true | _ => false end.

(** The public methods of [dict] and [list]: [hasattr] finds them before the
    evaluator tries the name as a key or an index. *)
Definition dict_methods : list string :=
  ["clear"; "copy"; "fromkeys"; "get"; "items"; "keys"; "pop"; "popitem";
   "setdefault"; "update"; "values"].

Definition list_methods : list string :=
  ["append"; "clear"; "copy"; "count"; "extend"; "index"; "insert"; "pop";
   "remove"; "reverse"; "sort"].

Definition name_in (name : string) (l : list string) : bool :=
  existsb (String.eqb name) l.

Definition sample_getattr (v : value) (name : string) : option value :=
  match v with
  | VDict _ =>
      if name_in name dict_methods
      then Some (VObject "builtin_function_or_method") else None
  | VList _ =>
      if name_in name list_methods
      then Some (VObject "builtin_function_or_method") else None
  | _ => None
  end.

(** The handlers of the class that cannot be called with one item. *)
Definition sample_class_attr (name : string) : attr :=
  if name_in name ["store"; "filter"; "map"; "for_each"; "reduce";
                   "get_tracks"]
  then AttrCallable
         (fun _ g => (Err (Raise TypeError "wrong number of arguments"), g))
  else AttrMissing.

#[export] Instance sample_builtins : Builtins := {|
  py_add := sample_add;
  py_sub := arith Z.sub;
  py_mul := arith Z.mul;
  py_truediv := sample_truediv;
  py_eq := sample_eq;
  py_ne := sample_ne;
  py_lt := order is_Lt;
  py_gt := order is_Gt;
  py_le := order (fun c => negb (is_Gt c));
  py_ge := order (fun c => negb (is_Lt c));
  py_getattr := sample_getattr;
  class_attr := sample_class_attr;
  evaluate_raw := fun v => Ok v
|}.

Definition tracks : value :=
  VList [Samples.track_record 0 "Drums" false;
         Samples.track_record 1 "FX" true;
         Samples.track_record 2 "Bass" false].

(** A grammar whose data store holds the snapshot's tracks. *)
Definition with_tracks : ReaperDSLGrammar := store "tracks" tracks __init__.

(** [track.selected == true] and the same with a misspelt variable. *)
Definition selected_is_true : node :=
  Expression (PropertyAccess "track" ["selected"]) (Some "==")
             (Some (Value (VBool true))).

Definition misspelt : node :=
  Expression (PropertyAccess "trak" ["selected"]) (Some "==")
             (Some (Value (VBool true))).


End FunctionalSamples.

(* ================================================================== *)
(** ** Properties of dsl_parser_functional.py *)
(* ================================================================== *)

Section FunctionalFacts.
Import Py Functional.
Context {B : Builtins}.

Definition ctx_of {A : Type} (r : result A * ReaperDSLGrammar) : dict :=
  _iteration_context (snd r).

(** The collection a combinator iterates, and whether it is a list. *)
Definition actual_collection (collection : value) (g : ReaperDSLGrammar)
  : value :=
  fst (resolve_collection iter_var_of collection g).


Lemma with_iteration_context_clears {A : Type} iv item
    (body : ReaperDSLGrammar -> result A * ReaperDSLGrammar) g :
  ctx_of (with_iteration_context iv item body g) = [].
Proof.
  unfold ctx_of, with_iteration_context.
  destruct (body _); reflexivity.
Qed.

Ltac loop_step E :=
  match goal with
  | |- context [with_iteration_context ?iv ?x ?body ?g] =>
      let Hc := fresh "Hc" in
      pose proof (with_iteration_context_clears iv x body g) as Hc;
      destruct (with_iteration_context iv x body g) as [? ?] eqn:E;
      unfold ctx_of in Hc; cbn [snd] in Hc
  end.

Lemma filter_loop_ctx iv p items : forall acc g,
  ctx_of (filter_loop iv p items acc g) =
    match items with [] => _iteration_context g | _ => [] end.
Proof.
  induction items as [|x rest IH]; intros acc g; [reflexivity|].
  cbn [filter_loop]. loop_step E.
  destruct r as [res|e]; [|destruct (is_Exception e)];
    try (rewrite IH; destruct rest; auto); exact Hc.
Qed.

Lemma map_loop_ctx iv f items : forall acc g,
  ctx_of (map_loop iv f items acc g) =
    match items with [] => _iteration_context g | _ => [] end.
Proof.
  induction items as [|x rest IH]; intros acc g; [reflexivity|].
  cbn [map_loop]. loop_step E.
  destruct r as [res|e]; [|destruct (is_Exception e)];
    try (rewrite IH; destruct rest; auto); exact Hc.
Qed.

Lemma for_each_loop_ctx iv f items : forall g,
  ctx_of (for_each_loop iv f items g) =
    match items with [] => _iteration_context g | _ => [] end.
Proof.
  induction items as [|x rest IH]; intros g; [reflexivity|].
  cbn [for_each_loop]. loop_step E.
  destruct r as [res|e]; [|destruct (is_Exception e)];
    try (rewrite IH; destruct rest; auto); exact Hc.
Qed.

(** A loop over [l1 ++ l2] is the loop over [l1] followed, unless a
    non-[Exception] got through, by the loop over [l2]. *)
Lemma filter_loop_app iv p l1 l2 : forall acc g,
  filter_loop iv p (l1 ++ l2) acc g =
    match filter_loop iv p l1 acc g with
    | (Ok acc1, g1) => filter_loop iv p l2 acc1 g1
    | (Err e, g1) => (Err e, g1)
    end.
Proof.
  induction l1 as [|x rest IH]; intros acc g; [reflexivity|].
  cbn [app filter_loop].
  destruct (with_iteration_context iv x (eval_predicate p x) g) as [r g'].
  destruct r as [res|e]; [|destruct (is_Exception e)];
    try apply IH; reflexivity.
Qed.

Lemma map_loop_app iv f l1 l2 : forall acc g,
  map_loop iv f (l1 ++ l2) acc g =
    match map_loop iv f l1 acc g with
    | (Ok acc1, g1) => map_loop iv f l2 acc1 g1
    | (Err e, g1) => (Err e, g1)
    end.
Proof.
  induction l1 as [|x rest IH]; intros acc g; [reflexivity|].
  cbn [app map_loop].
  destruct (with_iteration_context iv x (f x) g) as [r g'].
  destruct r as [res|e]; [|destruct (is_Exception e)];
    try apply IH; reflexivity.
Qed.

Lemma for_each_loop_app iv f l1 l2 : forall g,
  for_each_loop iv f (l1 ++ l2) g =
    match for_each_loop iv f l1 g with
    | (Ok _, g1) => for_each_loop iv f l2 g1
    | (Err e, g1) => (Err e, g1)
    end.
Proof.
  induction l1 as [|x rest IH]; intros g; [reflexivity|].
  cbn [app for_each_loop].
  destruct (with_iteration_context iv x (f x) g) as [r g'].
  destruct r as [res|e]; [|destruct (is_Exception e)];
    try apply IH; reflexivity.
Qed.



(** C4: the binding set for an item is gone when the item's step ends,
    whether its body returned or raised, and the body saw exactly that
    binding; a loop that has processed at least one item has an empty
    context when it goes on to the items that follow and when it ends, also
    when a non-[Exception] ends it early; and a combinator either leaves the
    context empty or has not touched the grammar at all. *)
Theorem iteration_binding_is_cleared :
  forall (iv : string) (item : value) (g : ReaperDSLGrammar),
    (forall (A : Type) (body : ReaperDSLGrammar -> result A * ReaperDSLGrammar),
        ctx_of (with_iteration_context iv item body g) = []
        /\ fst (with_iteration_context iv item body g)
           = fst (body (set_iteration_context [(iv, item)] g))
        /\ _iteration_context (set_iteration_context [(iv, item)] g)
           = [(iv, item)])
    /\ (forall p rest post acc,
          exists r1 g1,
            filter_loop iv p (item :: rest) acc g = (r1, g1)
            /\ _iteration_context g1 = []
            /\ filter_loop iv p ((item :: rest) ++ post) acc g
               = match r1 with
                 | Ok acc1 => filter_loop iv p post acc1 g1
                 | Err e => (Err e, g1)
                 end)
    /\ (forall f rest post acc,
          exists r1 g1,
            map_loop iv f (item :: rest) acc g = (r1, g1)
            /\ _iteration_context g1 = []
            /\ map_loop iv f ((item :: rest) ++ post) acc g
               = match r1 with
                 | Ok acc1 => map_loop iv f post acc1 g1
                 | Err e => (Err e, g1)
                 end)
    /\ (forall f rest post,
          exists r1 g1,
            for_each_loop iv f (item :: rest) g = (r1, g1)
            /\ _iteration_context g1 = []
            /\ for_each_loop iv f ((item :: rest) ++ post) g
               = match r1 with
                 | Ok _ => for_each_loop iv f post g1
                 | Err e => (Err e, g1)
                 end)
    /\ (forall collection p,
          ctx_of (filter collection p g) = []
          \/ snd (filter collection p g) = g)
    /\ (forall func collection,
          ctx_of (map func collection g) = []
          \/ snd (map func collection g) = g)
    /\ (forall collection func,
          ctx_of (for_each collection func g) = []
          \/ snd (for_each collection func g) = g).
Proof.
  intros iv item g.
  split; [|split; [|split; [|split; [|split; [|split]]]]].
  - intros A body. split; [apply with_iteration_context_clears|].
    split; [|reflexivity].
    unfold with_iteration_context. destruct (body _); reflexivity.
  - intros p rest post acc.
    pose proof (filter_loop_ctx iv p (item :: rest) acc g) as Hc.
    rewrite filter_loop_app.
    destruct (filter_loop iv p (item :: rest) acc g) as [r1 g1].
    exists r1, g1. split; [reflexivity|]. split; [exact Hc|].
    now destruct r1.
  - intros f rest post acc.
    pose proof (map_loop_ctx iv f (item :: rest) acc g) as Hc.
    rewrite map_loop_app.
    destruct (map_loop iv f (item :: rest) acc g) as [r1 g1].
    exists r1, g1. split; [reflexivity|]. split; [exact Hc|].
    now destruct r1.
  - intros f rest post.
    pose proof (for_each_loop_ctx iv f (item :: rest) g) as Hc.
    rewrite for_each_loop_app.
    destruct (for_each_loop iv f (item :: rest) g) as [r1 g1].
    exists r1, g1. split; [reflexivity|]. split; [exact Hc|].
    now destruct r1.
  - intros collection p. unfold filter.
    destruct (resolve_collection iter_var_of collection g) as [ac v].
    destruct ac as [| | | | |[|x rest]| |]; auto.
    left. now rewrite filter_loop_ctx.
  - intros func collection. unfold map.
    destruct (resolve_collection iter_var_of collection g) as [ac v].
    destruct ac as [| | | | |[|x rest]| |]; auto;
      destruct (resolve_function func g); auto.
    left. now rewrite map_loop_ctx.
  - intros collection func. unfold for_each.
    destruct (resolve_collection iter_var_of collection g) as [ac v].
    destruct ac as [| | | | |[|x rest]| |]; auto;
      destruct (resolve_function func g); auto.
    left. now rewrite for_each_loop_ctx.
Qed.

(** C7: when the right operand of a binary expression fails to evaluate,
    the expression fails, for every operator name: with the right operand's
    error if the left operand evaluated, with the left operand's error
    otherwise.  No value of the left operand spares the right one. *)
Theorem binary_evaluation_is_strict :
  forall (g : ReaperDSLGrammar) (l : node) (op : string) (r : node) (e : exn),
    _evaluate_value g r = Err e ->
    (forall lv, _evaluate_value g l = Ok lv ->
                _evaluate_expression g l (Some op) (Some r) = Err e)
    /\ (forall le, _evaluate_value g l = Err le ->
                   _evaluate_expression g l (Some op) (Some r) = Err le)
    /\ is_ok (_evaluate_expression g l (Some op) (Some r)) = false
    /\ _evaluate_value g (Expression l (Some op) (Some r))
       = _evaluate_expression g l (Some op) (Some r).
Proof.
  intros g l op r e Hr.
  assert (Hnode : _evaluate_value g (Expression l (Some op) (Some r))
                  = _evaluate_expression g l (Some op) (Some r))
    by reflexivity.
  rewrite Hnode.
  unfold _evaluate_expression, evaluate_expression_with.
  rewrite Hr.
  split; [|split; [|split]].
  - intros lv Hl. rewrite Hl. reflexivity.
  - intros le Hl. rewrite Hl. reflexivity.
  - destruct (_evaluate_value g l); reflexivity.
  - reflexivity.
Qed.

End FunctionalFacts.

(* ================================================================== *)
(** ** The combinators on the sample snapshot *)
(* ================================================================== *)

Section FunctionalExamples.
Import Py Functional FunctionalSamples.

Definition drums : value := Samples.track_record 0 "Drums" false.
Definition fx_track : value := Samples.track_record 1 "FX" true.
Definition bass : value := Samples.track_record 2 "Bass" false.




(** [True or missing.x]: Python's own [or] would stop at [True]; the
    evaluator has already failed on [missing]. *)
Lemma binary_evaluation_is_strict_witness :
  _evaluate_value with_tracks
    (Expression (Value (VBool true)) (Some "or")
                (Some (PropertyAccess "missing" ["x"])))
  = Err (Raise ValueError "Unknown object: missing").
Proof.
  destruct (binary_evaluation_is_strict (B := sample_builtins) with_tracks
              (Value (VBool true)) "or" (PropertyAccess "missing" ["x"])
              (Raise ValueError "Unknown object: missing") eq_refl)
    as [Hleft [_ [_ Hnode]]].
  rewrite Hnode. exact (Hleft (VBool true) eq_refl).
Defined.

(** The specification's filter example, and the same predicate with the
    iteration variable misspelt: every item fails and is skipped. *)
Example filter_selected_tracks :
  fst (filter (VStr "tracks") (PredNode selected_is_true) with_tracks)
    = Ok [fx_track]
  /\ fst (filter (VStr "tracks") (PredNode misspelt) with_tracks) = Ok []
  /\ ctx_of (filter (VStr "tracks") (PredNode misspelt) with_tracks) = [].
Proof. repeat split; reflexivity. Qed.

(** A store of plugins, and the predicate [plugin.enabled == true]. *)
Definition with_plugins : ReaperDSLGrammar :=
  store "plugins"
        (VList [VDict [("name", VStr "ReaEQ"); ("enabled", VBool true)]])
        __init__.

Definition plugin_enabled (var : string) : node :=
  Expression (PropertyAccess var ["enabled"]) (Some "==")
             (Some (Value (VBool true))).

(** C2: on the collection name [plugins] the code binds [plug] where the
    stated derivation gives [plugin], in the combinators and in the helper
    alike, so [filter(plugins, plugin.enabled == true)] skips every item;
    on [track_list] and on [s] the combinators bind [track_list] and the
    empty name, where the stated derivation (and the helper) give [track]
    and [item].  The four names the documentation lists agree. *)
Theorem iter_var_strips_characters_not_suffixes :
  iter_var_of "plugins" = "plug"
  /\ _get_iter_var_from_collection "plugins" = "plug"
  /\ iter_var_spec "plugins" = "plugin"
  /\ fst (filter (VStr "plugins") (PredNode (plugin_enabled "plugin"))
                 with_plugins) = Ok []
  /\ fst (filter (VStr "plugins") (PredNode (plugin_enabled "plug"))
                 with_plugins)
     = Ok [VDict [("name", VStr "ReaEQ"); ("enabled", VBool true)]]
  /\ iter_var_of "track_list" = "track_list"
  /\ iter_var_spec "track_list" = "track"
  /\ iter_var_of "s" = EmptyString
  /\ iter_var_spec "s" = "item"
  /\ List.map iter_var_of ["tracks"; "fx_chain"; "clips"; "items"]
     = ["track"; "fx"; "clip"; "item"]
  /\ List.map _get_iter_var_from_collection
              ["tracks"; "fx_chain"; "clips"; "items"]
     = ["track"; "fx"; "clip"; "item"]
  /\ List.map iter_var_spec ["tracks"; "fx_chain"; "clips"; "items"]
     = ["track"; "fx"; "clip"; "item"].
Proof. repeat split; reflexivity. Qed.

End FunctionalExamples.

(* ================================================================== *)
(** ** The selected track *)
(* ================================================================== *)

Section SelectedTrackFacts.
Import Py Dsl.

(** The track list a snapshot holds, under the optional wrapper. *)
Definition snapshot_tracks (st : dict) (tracks : list value) : Prop :=
  exists d, dict_get_default st "state" (VDict st) = VDict d
            /\ dict_get d "tracks" = Some (VList tracks).

Lemma first_selected_none tracks : forall i,
  0 <= i ->
  first_selected tracks i = -1 ->
  forall t, In t tracks -> is_selected t = false.
Proof.
  induction tracks as [|x rest IH]; intros i Hi H t Hin; [destruct Hin|].
  simpl in H. destruct (is_selected x) eqn:Hx; [lia|].
  destruct Hin as [<-|Hin]; [exact Hx|].
  exact (IH (i + 1) ltac:(lia) H t Hin).
Qed.

Lemma first_selected_range tracks : forall i,
  0 <= i ->
  first_selected tracks i = -1
  \/ i <= first_selected tracks i < i + Z.of_nat (List.length tracks).
Proof.
  induction tracks as [|x rest IH]; intros i Hi; [left; reflexivity|].
  cbn [first_selected List.length]. rewrite Nat2Z.inj_succ.
  destruct (is_selected x); [right; lia|].
  destruct (IH (i + 1) ltac:(lia)) as [H|H]; [left; exact H|right; lia].
Qed.

Lemma first_selected_found tracks : forall i,
  0 <= i ->
  first_selected tracks i <> -1 ->
  exists t,
    nth_error tracks (Z.to_nat (first_selected tracks i - i)) = Some t
    /\ is_selected t = true
    /\ forall m t', (m < Z.to_nat (first_selected tracks i - i))%nat ->
                    nth_error tracks m = Some t' -> is_selected t' = false.
Proof.
  induction tracks as [|x rest IH]; intros i Hi H; [now elim H|].
  cbn [first_selected] in *.
  destruct (is_selected x) eqn:Hx.
  - exists x. rewrite Z.sub_diag. cbn. repeat split; auto. intros; lia.
  - destruct (IH (i + 1) ltac:(lia) H) as [t [Hn [Ht Hmin]]].
    destruct (first_selected_range rest (i + 1) ltac:(lia)) as [E|E];
      [contradiction|].
    replace (Z.to_nat (first_selected rest (i + 1) - i))
      with (S (Z.to_nat (first_selected rest (i + 1) - (i + 1)))) by lia.
    exists t. cbn [nth_error]. repeat split; auto.
    intros [|m] t' Hm Hnth; cbn in Hnth.
    + now inversion Hnth; subst.
    + apply (Hmin m t'); [lia|exact Hnth].
Qed.

Lemma selected_track_index_of_list st tracks :
  snapshot_tracks st tracks ->
  selected_track_index (Some st) = Ok (first_selected tracks 0).
Proof.
  intros [d [Hmap Htracks]]. unfold selected_track_index.
  rewrite Hmap. unfold py_get, dict_get_default. rewrite Htracks.
  reflexivity.
Qed.

(** X1: on a snapshot that holds a track list, [_get_selected_track_index]
    returns [-1] exactly when no entry is a dict with a truthy ["selected"],
    and otherwise the position of the first such entry: an index inside the
    list, with nothing selected before it. *)
Theorem selected_index_is_first_selected :
  forall (st : dict) (tracks : list value),
    snapshot_tracks st tracks ->
    exists i,
      selected_track_index (Some st) = Ok i
      /\ ((i = -1 /\ forall t, In t tracks -> is_selected t = false)
          \/ (0 <= i < Z.of_nat (List.length tracks)
              /\ exists t,
                   nth_error tracks (Z.to_nat i) = Some t
                   /\ is_selected t = true
                   /\ forall m t', (m < Z.to_nat i)%nat ->
                                   nth_error tracks m = Some t' ->
                                   is_selected t' = false)).
Proof.
  intros st tracks Hst.
  exists (first_selected tracks 0).
  split; [exact (selected_track_index_of_list st tracks Hst)|].
  destruct (Z.eq_dec (first_selected tracks 0) (-1)) as [E|E].
  - left. split; [exact E|].
    exact (first_selected_none tracks 0 ltac:(lia) E).
  - right.
    destruct (first_selected_range tracks 0 ltac:(lia)) as [H|H];
      [contradiction|].
    split; [lia|].
    destruct (first_selected_found tracks 0 ltac:(lia) E) as [t Ht].
    rewrite Z.sub_0_r in Ht. exists t. exact Ht.
Qed.

Definition three_tracks : list value :=
  [Samples.track_record 0 "Drums" false; Samples.track_record 1 "FX" true;
   Samples.track_record 2 "Bass" false].

Lemma selected_index_is_first_selected_witness :
  exists i,
    selected_track_index (Some Samples.snapshot) = Ok i
    /\ ((i = -1
         /\ forall t, In t three_tracks -> is_selected t = false)
        \/ (0 <= i < 3
            /\ exists t,
                 nth_error three_tracks (Z.to_nat i) = Some t
                 /\ is_selected t = true
                 /\ forall m t', (m < Z.to_nat i)%nat ->
                                 nth_error three_tracks m = Some t' ->
                                 is_selected t' = false)).
Proof.
  apply (selected_index_is_first_selected Samples.snapshot three_tracks).
  eexists. split; reflexivity.
Defined.

(** X2: the ["state"] wrapper is optional.  A snapshot dict without a
    ["state"] key of its own gives the same selected index bare and
    wrapped; this holds for malformed contents too, error included. *)
Theorem wrapper_key_is_optional :
  forall (d : dict),
    dict_get d "state" = None ->
    selected_track_index (Some [("state", VDict d)])
      = selected_track_index (Some d).
Proof.
  intros d H. unfold selected_track_index, dict_get_default.
  rewrite H. reflexivity.
Qed.

Lemma wrapper_key_is_optional_witness :
  selected_track_index (Some Samples.snapshot)
    = selected_track_index
        (Some [("tracks", VList three_tracks)]).
Proof.
  exact (wrapper_key_is_optional [("tracks", VList three_tracks)] eq_refl).
Defined.

End SelectedTrackFacts.

(* ================================================================== *)
(** ** Track references and the handlers that need a track *)
(* ================================================================== *)

Section TrackReferenceFacts.
Import Py Dsl DslParser.

(** A call that needs a track and carries the arguments its handler asks
    for: an anchor for [new_clip], a plugin or an instrument for [add_fx]. *)
Definition track_scoped (c : call) : bool :=
  match c with
  | Track _ _ _ _ _ => false
  | NewClip bar start _ _ _ position => anchor_given bar start position
  | AddFx None None => false
  | _ => true
  end.

Definition is_new_clip (c : call) : bool :=
  match c with NewClip _ _ _ _ _ _ => true | _ => false end.

Ltac bound_guard g H :=
  replace (current_track_index g <? 0) with false
    by (symmetry; apply Z.ltb_ge; exact H).

(** On a bound grammar every track-scoped call appends one action that
    names the bound track. *)
Lemma track_scoped_on_bound c g :
  0 <= current_track_index g ->
  track_scoped c = true ->
  exists a,
    handle c g = Ok (append_action a g)
    /\ dict_get a "track" = Some (VInt (current_track_index g)).
Proof.
  intros Hb Hc.
  destruct c; simpl in Hc; try discriminate;
    unfold handle, new_clip, add_midi, add_fx, set_volume, set_pan, set_mute,
      set_solo, set_name, set_field;
    bound_guard g Hb; cbn [bind].
  - destruct bar; [|destruct start; [|destruct position; [|discriminate]]];
      cbn; eexists; split; reflexivity.
  - destruct note; cbn; eexists; split; reflexivity.
  - destruct fxname; [|destruct instrument; [|discriminate]];
      cbn; eexists; split; reflexivity.
  - eexists; split; reflexivity.
  - eexists; split; reflexivity.
  - eexists; split; reflexivity.
  - eexists; split; reflexivity.
  - eexists; split; reflexivity.
Qed.

(** X3: [track(id=k)] with [k >= 1] emits nothing, leaves the counter alone
    and binds [k-1], whatever its other arguments are; any track-scoped
    call that follows succeeds and its action names track [k-1]. *)
Theorem track_id_then_track_scoped_call :
  forall (g : MagdaDSLGrammar) (k : Z) (instrument name : option string)
         (index : option Z) (selected : option bool) (c : call),
    1 <= k ->
    track_scoped c = true ->
    exists g1 a,
      track instrument name index (Some k) selected g = Ok g1
      /\ actions g1 = actions g
      /\ track_counter g1 = track_counter g
      /\ current_track_index g1 = k - 1
      /\ handle c g1 = Ok (append_action a g1)
      /\ dict_get a "track" = Some (VInt (k - 1)).
Proof.
  intros g k instrument name index selected c Hk Hc.
  destruct (track_scoped_on_bound c (bind_track (k - 1) g)
              ltac:(simpl; lia) Hc) as [a [Hrun Htrack]].
  exists (bind_track (k - 1) g), a.
  repeat split; auto.
Qed.

Lemma track_id_then_track_scoped_call_witness :
  exists g1 a,
    track None None None (Some 3) None Samples.fresh = Ok g1
    /\ actions g1 = actions Samples.fresh
    /\ track_counter g1 = track_counter Samples.fresh
    /\ current_track_index g1 = 3 - 1
    /\ handle (AddFx (Some "ReaEQ") None) g1 = Ok (append_action a g1)
    /\ dict_get a "track" = Some (VInt (3 - 1)).
Proof.
  exact (track_id_then_track_scoped_call Samples.fresh 3 None None None None
           (AddFx (Some "ReaEQ") None) ltac:(lia) eq_refl).
Defined.

(** X4: [track(id=k)] with [k <= 0] is accepted without an error but the
    index [k-1] it binds is negative, which the handlers read as "no
    track": every track-scoped call other than [new_clip] then raises, and
    [new_clip] behaves as on a grammar that was never bound. *)
Theorem track_id_not_positive_binds_nothing :
  forall (g : MagdaDSLGrammar) (k : Z) (c : call),
    k <= 0 ->
    track_scoped c = true ->
    exists g1,
      track None None None (Some k) None g = Ok g1
      /\ current_track_index g1 = k - 1
      /\ (is_new_clip c = false -> exists e, handle c g1 = Err e)
      /\ (forall i, _get_selected_track_index g = Ok i -> 0 <= i ->
                    is_new_clip c = true ->
                    exists a, handle c g1 = Ok (append_action a g1)
                              /\ dict_get a "track" = Some (VInt i)).
Proof.
  intros g k c Hk Hc.
  exists (bind_track (k - 1) g).
  assert (Hneg : current_track_index (bind_track (k - 1) g) < 0)
    by (simpl; lia).
  split; [reflexivity|]. split; [reflexivity|]. split.
  - intros Hn.
    destruct (guarded_handlers_raise _ Hneg)
      as [Hmidi [Hfx [Hvol [Hpan [Hmute [Hsolo Hname]]]]]].
    destruct c; simpl in Hc, Hn; try discriminate; simpl; eauto.
  - intros i Hsel Hi Hn.
    destruct c; simpl in Hn; try discriminate. simpl in Hc.
    destruct (new_clip_unbound (bind_track (k - 1) g) i bar start end_
                length_bars length position Hneg Hsel Hi Hc)
      as [a [Hrun [Htrack _]]].
    exists a. split; [exact Hrun|exact Htrack].
Qed.

Lemma track_id_not_positive_binds_nothing_witness :
  exists g1,
    track None None None (Some 0) None Samples.fresh = Ok g1
    /\ current_track_index g1 = 0 - 1
    /\ (is_new_clip (SetMute true) = false ->
        exists e, handle (SetMute true) g1 = Err e)
    /\ (forall i, _get_selected_track_index Samples.fresh = Ok i -> 0 <= i ->
                  is_new_clip (SetMute true) = true ->
                  exists a, handle (SetMute true) g1 = Ok (append_action a g1)
                            /\ dict_get a "track" = Some (VInt i)).
Proof.
  exact (track_id_not_positive_binds_nothing Samples.fresh 0 (SetMute true)
           ltac:(lia) eq_refl).
Defined.

(** X5: [track(selected=true)] and the fallback of [new_clip] read the
    snapshot alike.  On an unbound grammar, [track(selected=true)] succeeds
    exactly when a selected index can be found, it then binds that index
    without emitting anything, and a [new_clip] after it appends the same
    action the bare [new_clip] appends; when it raises, the bare
    [new_clip] raises too. *)
Theorem track_selected_matches_new_clip_fallback :
  forall (g : MagdaDSLGrammar) (bar : option Z) (start end_ : option float)
         (length_bars : option Z) (length position : option float),
    current_track_index g < 0 ->
    anchor_given bar start position = true ->
    match track None None None None (Some true) g with
    | Ok g1 =>
        _get_selected_track_index g = Ok (current_track_index g1)
        /\ 0 <= current_track_index g1
        /\ actions g1 = actions g
        /\ track_counter g1 = track_counter g
        /\ exists a,
             new_clip bar start end_ length_bars length position g1
               = Ok (append_action a g1)
             /\ new_clip bar start end_ length_bars length position g
               = Ok (append_action a g)
    | Err _ =>
        exists e, new_clip bar start end_ length_bars length position g = Err e
    end.
Proof.
  intros g bar start end_ length_bars length position Hneg Hanchor.
  assert (Hlt : (current_track_index g <? 0) = true)
    by (apply Z.ltb_lt; exact Hneg).
  unfold track. cbn [is_True bind].
  unfold new_clip. rewrite Hlt.
  destruct (_get_selected_track_index g) as [i|e] eqn:Hsel; cbn [bind];
    [|eauto].
  destruct (i >=? 0) eqn:Hi.
  - assert (Hge : 0 <= i) by (apply Z.geb_le in Hi; lia).
    replace (i <? 0) with false by (symmetry; apply Z.ltb_ge; exact Hge).
    cbn [current_track_index bind_track actions track_counter].
    replace (i <? 0) with false by (symmetry; apply Z.ltb_ge; exact Hge).
    cbn [bind].
    repeat split; auto.
    unfold _get_selected_track_index in *. cbn [state bind_track].
    destruct bar; [|destruct start; [|destruct position; [|discriminate]]];
      cbn; eexists; split; reflexivity.
  - assert (Hn : (i <? 0) = true).
    { apply Z.ltb_lt. rewrite Z.geb_leb in Hi.
      apply Z.leb_gt in Hi. exact Hi. }
    rewrite Hn. cbn. eauto.
Qed.

Lemma track_selected_matches_new_clip_fallback_witness :
  match track None None None None (Some true) Samples.fresh with
  | Ok g1 =>
      _get_selected_track_index Samples.fresh = Ok (current_track_index g1)
      /\ 0 <= current_track_index g1
      /\ actions g1 = actions Samples.fresh
      /\ track_counter g1 = track_counter Samples.fresh
      /\ exists a,
           new_clip (Some 1) None None None None None g1
             = Ok (append_action a g1)
           /\ new_clip (Some 1) None None None None None Samples.fresh
             = Ok (append_action a Samples.fresh)
  | Err _ =>
      exists e,
        new_clip (Some 1) None None None None None Samples.fresh = Err e
  end.
Proof.
  exact (track_selected_matches_new_clip_fallback Samples.fresh (Some 1) None
           None None None None ltac:(simpl; lia) eq_refl).
Defined.

End TrackReferenceFacts.

(* ================================================================== *)
(** ** What a program leaves in the action list of dsl_parser.py *)
(* ================================================================== *)

Section ProgramFacts.
Import Py Dsl DslParser.

(** The action names the handlers write besides ["create_track"]. *)
Definition track_action_names : list string :=
  ["create_clip_at_bar"; "create_clip"; "add_midi"; "add_track_fx";
   "add_instrument"; "set_track_volume"; "set_track_pan"; "set_track_mute";
   "set_track_solo"; "set_track_name"].

(** An action dict as the handlers build them: a known ["action"] name, and
    either the ["index"] of a created track or a non-negative ["track"]. *)
Definition well_formed_action (a : dict) : bool :=
  match dict_get a "action" with
  | Some (VStr k) =>
      if String.eqb k "create_track" then
        match dict_get a "index" with Some (VInt _) => true | _ => false end
      else
        existsb (String.eqb k) track_action_names
        && match dict_get a "track" with
           | Some (VInt t) => 0 <=? t
           | _ => false
           end
  | _ => false
  end.

Ltac split_call :=
  repeat (first
    [ match goal with
      | |- context [match ?x with _ => _ end] => is_var x; destruct x
      | |- context [selected_track_index ?s] =>
          destruct (selected_track_index s) eqn:?
      | |- context [?a <? ?b] => destruct (a <? b) eqn:?
      | |- context [?a >=? ?b] => destruct (a >=? b) eqn:?
      end ];
    cbn [actions current_track_index track_counter state bind]).

Ltac unfold_handlers :=
  unfold handle, track, new_clip, add_midi, add_fx, set_volume, set_pan,
    set_mute, set_solo, set_name, set_field, append_action, bind_track,
    _get_selected_track_index, is_True;
  cbn [actions current_track_index track_counter state bind].

Lemma nonneg_leb x : (x <? 0) = false -> (0 <=? x) = true.
Proof. intros H. apply Z.ltb_ge in H. now apply Z.leb_le. Qed.

(** One handler call: the list is untouched or grows by one well-formed
    action. *)
Lemma handle_appends_well_formed c g :
  match handle c g with
  | Ok g' =>
      actions g' = actions g
      \/ exists a, actions g' = actions g ++ [a]
                   /\ well_formed_action a = true
  | Err _ => True
  end.
Proof.
  destruct g as [acts cur cnt st].
  destruct c; unfold_handlers; split_call; auto;
    right; eexists; (split; [reflexivity|]);
    unfold well_formed_action; cbn;
    rewrite ?nonneg_leb by assumption; try reflexivity.
  all: rewrite dict_get_set_other by reflexivity;
    repeat match goal with
           | o : option string |- _ => destruct o
           end; cbn; rewrite ?dict_get_set_same; reflexivity.
Qed.

(** The selected-track lookup and the handlers raise subclasses of
    [Exception] only. *)
Lemma selected_track_index_raises_exception st e :
  selected_track_index st = Err e -> is_Exception e = true.
Proof.
  unfold selected_track_index, py_get, py_iter.
  destruct st as [d|]; [|discriminate].
  destruct (dict_get_default d "state" (VDict d)); cbn;
    try (intros H; inversion H; reflexivity).
  destruct (dict_get_default d0 "tracks" (VList [])); cbn;
    intros H; inversion H; reflexivity.
Qed.

Lemma handle_raises_exception c g e :
  handle c g = Err e -> is_Exception e = true.
Proof.
  destruct g as [acts cur cnt st].
  destruct c; unfold_handlers; split_call;
    intros H; try discriminate;
    try (inversion H; subst; reflexivity);
    inversion H; subst;
    eapply selected_track_index_raises_exception; eassumption.
Qed.

Lemma execute_keeps_well_formed prog : forall g,
  Forall (fun a => well_formed_action a = true) (actions g) ->
  Forall (fun a => well_formed_action a = true)
         (actions (fst (execute prog g))).
Proof.
  induction prog as [|c rest IH]; intros g Hwf; [exact Hwf|].
  cbn [execute].
  pose proof (handle_appends_well_formed c g) as Hstep.
  destruct (handle c g) as [g1|e]; [|exact Hwf].
  apply IH. destruct Hstep as [Hsame|[a [Ha Hok]]].
  - rewrite Hsame. exact Hwf.
  - rewrite Ha. apply Forall_app. split; [exact Hwf|]. now constructor.
Qed.

Lemma execute_raises_exception prog : forall g e,
  snd (execute prog g) = Some e -> is_Exception e = true.
Proof.
  induction prog as [|c rest IH]; intros g e H; [discriminate|].
  cbn [execute] in H.
  destruct (handle c g) as [g1|e1] eqn:Hh.
  - exact (IH g1 e H).
  - cbn in H. inversion H; subst.
    exact (handle_raises_exception c g e Hh).
Qed.



(** [s] starts with [p]. *)
Definition starts_with (p s : string) : bool := String.prefix p s.

(** X7: [parse_dsl] of dsl_parser.py has two outcomes only: a list of
    actions that is not empty and holds well-formed actions only (the
    grammar's action list, for a program that is not empty), or a
    [ValueError].  For the empty program the message is ["empty DSL code"]
    and the grammar is left as it was; for any other program the message
    starts with ["failed to parse DSL: "], also when its calls emit
    nothing. *)
Theorem parse_dsl_result_shape :
  forall (prog : list call) (g : MagdaDSLGrammar),
    match snd (parse_dsl prog g) with
    | Ok acts =>
        prog <> []
        /\ acts <> []
        /\ Forall (fun a => well_formed_action a = true) acts
        /\ acts = actions (fst (parse_dsl prog g))
    | Err e =>
        exn_cls e = ValueError
        /\ match prog with
           | [] => exn_msg e = "empty DSL code" /\ fst (parse_dsl prog g) = g
           | _ :: _ =>
               starts_with "failed to parse DSL: " (exn_msg e) = true
           end
    end.
Proof.
  intros prog g. unfold parse_dsl.
  destruct prog as [|c rest]; [cbn; auto|].
  pose proof (execute_keeps_well_formed (c :: rest) (reset g)
                (Forall_nil _)) as Hwf.
  pose proof (execute_raises_exception (c :: rest) (reset g)) as Hexc.
  destruct (execute (c :: rest) (reset g)) as [g' err]. cbn [fst snd] in *.
  destruct err as [e|].
  - rewrite (Hexc e eq_refl). cbn. split; [reflexivity|].
    destruct (exn_msg e); reflexivity.
  - unfold get_actions.
    destruct (actions g') as [|a acts] eqn:Ha; cbn.
    + split; reflexivity.
    + rewrite Ha. split; [discriminate|]. split; [discriminate|].
      split; [exact Hwf|reflexivity].
Qed.

(** X8: [parse_dsl] of dsl_parser.py on a program that is not empty starts
    from a reset grammar, so what an earlier parse left behind (actions,
    bound track, counter) has no effect: two grammars with the same
    snapshot give the same result and end in the same grammar.  The empty
    program is refused before the reset: the grammar keeps what it held. *)
Theorem parse_dsl_forgets_earlier_runs :
  forall (prog : list call) (g1 g2 : MagdaDSLGrammar),
    state g1 = state g2 ->
    match prog with
    | [] => parse_dsl prog g1 = (g1, Err (Raise ValueError "empty DSL code"))
    | _ :: _ => parse_dsl prog g1 = parse_dsl prog g2
    end.
Proof.
  intros prog g1 g2 H. destruct prog as [|c rest]; [reflexivity|].
  unfold parse_dsl, reset. now rewrite H.
Qed.

Lemma parse_dsl_forgets_earlier_runs_witness :
  parse_dsl [Samples.plain_track "b"]
            (fst (parse_dsl [Samples.plain_track "a"; Samples.plain_track "c"]
                            Samples.fresh))
    = parse_dsl [Samples.plain_track "b"] Samples.fresh.
Proof.
  exact (parse_dsl_forgets_earlier_runs
           [Samples.plain_track "b"]
           (fst (parse_dsl [Samples.plain_track "a"; Samples.plain_track "c"]
                           Samples.fresh))
           Samples.fresh eq_refl).
Defined.

End ProgramFacts.

(* ================================================================== *)
(** ** The API format of collected actions *)
(* ================================================================== *)

From Stdlib Require Import Permutation.

Section ApiFormatFacts.
Import Py Dsl ActionParadigm.

Lemma dict_get_not_in (d : dict) (k : string) :
  ~ In k (dict_keys d) -> dict_get d k = None.
Proof.
  induction d as [|[k' v] rest IH]; intros H; [reflexivity|].
  cbn in *. destruct (String.eqb k' k) eqn:E.
  - apply String.eqb_eq in E. elim H. now left.
  - apply IH. intros Hin. apply H. now right.
Qed.

Lemma dict_set_fresh (d : dict) (k : string) (v : value) :
  dict_get d k = None -> dict_set d k v = d ++ [(k, v)].
Proof.
  induction d as [|[k' v'] rest IH]; intros H; [reflexivity|].
  cbn in *. destruct (String.eqb k' k); [discriminate|].
  now rewrite IH.
Qed.

Lemma dict_get_app (d1 d2 : dict) (k : string) :
  dict_get (d1 ++ d2) k =
    match dict_get d1 k with Some v => Some v | None => dict_get d2 k end.
Proof.
  induction d1 as [|[k' v'] rest IH]; [reflexivity|].
  cbn. destruct (String.eqb k' k); [reflexivity|exact IH].
Qed.

Definition set_entry (d : dict) (kv : string * value) : dict :=
  dict_set d (fst kv) (snd kv).

Lemma fold_set_lookup (l : dict) : forall (base : dict) (k : string),
  NoDup (dict_keys l) ->
  dict_get (fold_left set_entry l base) k =
    match dict_get l k with Some v => Some v | None => dict_get base k end.
Proof.
  induction l as [|[k0 v0] rest IH]; intros base k Hnd; [reflexivity|].
  cbn [fold_left]. inversion Hnd as [|? ? Hnotin Hrest]; subst.
  rewrite (IH _ k Hrest). unfold set_entry. cbn [fst snd dict_get].
  destruct (String.eqb k0 k) eqn:E.
  - apply String.eqb_eq in E; subst k0.
    rewrite (dict_get_not_in rest k Hnotin). apply dict_get_set_same.
  - destruct (dict_get rest k); [reflexivity|].
    now apply dict_get_set_other.
Qed.

Lemma fold_set_fresh (l : dict) : forall (base : dict),
  NoDup (dict_keys l) ->
  (forall k, In k (dict_keys l) -> dict_get base k = None) ->
  fold_left set_entry l base = base ++ l.
Proof.
  induction l as [|[k0 v0] rest IH]; intros base Hnd Hfresh.
  - now rewrite app_nil_r.
  - cbn [fold_left]. inversion Hnd as [|? ? Hnotin Hrest]; subst.
    unfold set_entry at 2. cbn [fst snd].
    rewrite dict_set_fresh by (apply Hfresh; now left).
    rewrite IH; [now rewrite <- app_assoc|exact Hrest|].
    intros k Hin. rewrite dict_get_app, Hfresh by (now right).
    cbn. destruct (String.eqb k0 k) eqn:E; [|reflexivity].
    apply String.eqb_eq in E; subst. contradiction.
Qed.

(** X9: the dict [get_actions] builds from a collected action,
    [{"action": kind, **payload}].  Every payload entry is found in it under
    its key, a payload entry called ["action"] takes the place of the kind,
    and no other key appears; when the payload has no ["action"] entry the
    dict is the kind followed by the payload entries in their order. *)
Theorem api_action_lookup :
  forall (a : Action),
    NoDup (dict_keys (payload a)) ->
    (forall k,
        dict_get (api_action a) k =
          match dict_get (payload a) k with
          | Some v => Some v
          | None => if String.eqb "action" k then Some (VStr (kind a))
                    else None
          end)
    /\ (dict_get (payload a) "action" = None ->
        api_action a = ("action", VStr (kind a)) :: payload a).
Proof.
  intros a Hnd. split.
  - intros k. unfold api_action.
    change (fun d kv => dict_set d (fst kv) (snd kv)) with set_entry.
    rewrite (fold_set_lookup (payload a) _ k Hnd). reflexivity.
  - intros Hno. unfold api_action.
    change (fun d kv => dict_set d (fst kv) (snd kv)) with set_entry.
    rewrite fold_set_fresh; [reflexivity|exact Hnd|].
    intros k Hin. cbn [dict_get].
    destruct (String.eqb "action" k) eqn:E; [|reflexivity].
    apply String.eqb_eq in E; subst k.
    destruct (dict_get (payload a) "action") eqn:Hg; [discriminate|].
    exfalso. clear Hno Hnd.
    induction (payload a) as [|[k' v'] rest IH]; [destruct Hin|].
    cbn in Hg, Hin. destruct (String.eqb k' "action") eqn:E; [discriminate|].
    destruct Hin as [Hk|Hin]; [|exact (IH Hg Hin)].
    subst k'. now rewrite String.eqb_refl in E.
Qed.

(** A payload that carries its own ["action"] entry. *)
Lemma api_action_lookup_witness :
  (forall k,
      dict_get (api_action {| kind := "add_midi";
                              payload := [("track", VInt 0);
                                          ("action", VStr "other")] |}) k =
        match dict_get [("track", VInt 0); ("action", VStr "other")] k with
        | Some v => Some v
        | None => if String.eqb "action" k then Some (VStr "add_midi")
                  else None
        end)
  /\ api_action {| kind := "add_midi"; payload := [("track", VInt 0)] |}
     = [("action", VStr "add_midi"); ("track", VInt 0)].
Proof.
  split.
  - exact (proj1 (api_action_lookup
                    {| kind := "add_midi";
                       payload := [("track", VInt 0);
                                   ("action", VStr "other")] |}
                    ltac:(repeat constructor; cbn; intuition congruence))).
  - exact (proj2 (api_action_lookup
                    {| kind := "add_midi"; payload := [("track", VInt 0)] |}
                    ltac:(repeat constructor; cbn; intuition congruence))
                 eq_refl).
Defined.

End ApiFormatFacts.

(* ================================================================== *)
(** ** The two parsers agree *)
(* ================================================================== *)

Section ParserAgreement.
Import Py Dsl.

(** A grammar of dsl_parser.py and one of the action paradigm in step: the
    same binding, counter and snapshot, a collector as runtime, and the
    collected actions, in API format, holding the entries of the action
    dicts one for one (in whatever key order). *)
Definition in_step (g : DslParser.MagdaDSLGrammar)
    (h : ActionParadigm.MagdaDSLGrammar) : Prop :=
  DslParser.current_track_index g = ActionParadigm.current_track_index h
  /\ DslParser.track_counter g = ActionParadigm.track_counter h
  /\ DslParser.state g = ActionParadigm.state h
  /\ ActionParadigm.has_interpreter h = true
  /\ exists c,
       ActionParadigm._runtime h = Some c
       /\ Forall2 (@Permutation (string * value)) (DslParser.actions g)
            (List.map ActionParadigm.api_action (ActionParadigm.actions c)).

Ltac split_both :=
  repeat (first
    [ match goal with
      | |- context [match ?x with _ => _ end] => is_var x; destruct x
      | |- context [selected_track_index ?s] =>
          destruct (selected_track_index s)
      | |- context [?a <? ?b] => destruct (a <? b)
      | |- context [?a >=? ?b] => destruct (a >=? b)
      end ];
    cbn [DslParser.actions DslParser.current_track_index
         DslParser.track_counter DslParser.state
         ActionParadigm._runtime ActionParadigm._actions
         ActionParadigm.current_track_index ActionParadigm.track_counter
         ActionParadigm.state ActionParadigm.data
         ActionParadigm.has_interpreter ActionParadigm.actions bind]).

Ltac step_in_step HF :=
  unfold in_step;
  cbn [DslParser.actions DslParser.current_track_index
       DslParser.track_counter DslParser.state
       ActionParadigm._runtime ActionParadigm._actions
       ActionParadigm.current_track_index ActionParadigm.track_counter
       ActionParadigm.state ActionParadigm.has_interpreter
       ActionParadigm.actions];
  repeat (split; [reflexivity|]);
  eexists; split; [reflexivity|];
  cbn [ActionParadigm.actions];
  first
    [ exact HF
    | rewrite List.map_app; apply Forall2_app; [exact HF|];
      constructor; [|constructor];
      cbn; first [apply Permutation_refl | apply perm_swap] ].

(** One call keeps the two grammars in step, or fails in both with the
    same exception. *)
Lemma handle_in_step c g h :
  in_step g h ->
  match DslParser.handle c g with
  | Ok g' =>
      match ActionParadigm.handle (ActionParadigm.Handler c) h with
      | Ok h' => in_step g' h'
      | Err _ => False
      end
  | Err e => ActionParadigm.handle (ActionParadigm.Handler c) h = Err e
  end.
Proof.
  destruct g as [acts cur cnt st].
  destruct h as [rt acts' cur' cnt' st' dat hi].
  intros (Hcur & Hcnt & Hst & Hhi & cl & Hrt & HF).
  cbn in Hcur, Hcnt, Hst, Hhi, Hrt, HF. subst. destruct cl as [cacts].
  cbn [ActionParadigm.actions] in HF.
  destruct c;
    unfold DslParser.handle, ActionParadigm.handle,
      DslParser.track, ActionParadigm.track,
      DslParser.new_clip, ActionParadigm.new_clip,
      DslParser.add_midi, ActionParadigm.add_midi,
      DslParser.add_fx, ActionParadigm.add_fx,
      DslParser.set_volume, ActionParadigm.set_volume,
      DslParser.set_pan, ActionParadigm.set_pan,
      DslParser.set_mute, ActionParadigm.set_mute,
      DslParser.set_solo, ActionParadigm.set_solo,
      DslParser.set_name, ActionParadigm.set_name,
      DslParser.set_field, ActionParadigm.set_field,
      DslParser.append_action, DslParser.bind_track,
      ActionParadigm._emit_action, ActionParadigm.set_runtime,
      ActionParadigm.collector_execute,
      DslParser._get_selected_track_index,
      ActionParadigm._get_selected_track_index, is_True,
      DslParser.set_opt_str, ActionParadigm.set_opt_str;
    cbn [DslParser.actions DslParser.current_track_index
         DslParser.track_counter DslParser.state
         ActionParadigm._runtime ActionParadigm._actions
         ActionParadigm.current_track_index ActionParadigm.track_counter
         ActionParadigm.state ActionParadigm.data
         ActionParadigm.has_interpreter ActionParadigm.actions bind];
    split_both; try reflexivity; step_in_step HF.
Qed.

Lemma execute_in_step prog : forall g h,
  in_step g h ->
  in_step (fst (DslParser.execute prog g))
          (fst (ActionParadigm.execute
                  (List.map ActionParadigm.Handler prog) h))
  /\ snd (DslParser.execute prog g)
     = snd (ActionParadigm.execute (List.map ActionParadigm.Handler prog) h).
Proof.
  induction prog as [|c rest IH]; intros g h HR; [split; [exact HR|reflexivity]|].
  cbn [DslParser.execute ActionParadigm.execute List.map].
  pose proof (handle_in_step c g h HR) as Hstep.
  destruct (DslParser.handle c g) as [g1|e].
  - destruct (ActionParadigm.handle (ActionParadigm.Handler c) h) as [h1|e'];
      [|destruct Hstep].
    exact (IH g1 h1 Hstep).
  - rewrite Hstep. split; [exact HR|reflexivity].
Qed.

Lemma forall2_nil_iff {A B : Type} (R : A -> B -> Prop) l :
  Forall2 R [] l -> l = [].
Proof. intros H. now inversion H. Qed.

(** X10: the two parsers agree.  For a parser of the action paradigm whose
    grammar is as constructed (nothing bound, counter 0, an interpreter
    attached) and holds the same snapshot, [parse_dsl] fails in both with
    the same exception or returns in both a list of actions of the same
    length whose dicts hold the same entries, position by position; only
    the order of the keys inside a dict can differ. *)
Theorem parsers_agree :
  forall (prog : list call) (g : DslParser.MagdaDSLGrammar)
         (p : ActionParadigm.DSLParserActionParadigm),
    DslParser.state g = ActionParadigm.state (ActionParadigm.grammar p) ->
    ActionParadigm.current_track_index (ActionParadigm.grammar p) = -1 ->
    ActionParadigm.track_counter (ActionParadigm.grammar p) = 0 ->
    ActionParadigm.has_interpreter (ActionParadigm.grammar p) = true ->
    match snd (DslParser.parse_dsl prog g),
          snd (ActionParadigm.parse_dsl
                 (List.map ActionParadigm.Handler prog) p) with
    | Ok acts, Ok acts' => Forall2 (@Permutation (string * value)) acts acts'
    | Err e, Err e' => e = e'
    | _, _ => False
    end.
Proof.
  intros prog g p Hst Hcur Hcnt Hhi.
  destruct prog as [|c0 rest0]; [reflexivity|].
  unfold DslParser.parse_dsl, ActionParadigm.parse_dsl.
  cbn [List.map]. cbv iota.
  assert (HR : in_step (DslParser.reset g)
                 (ActionParadigm.set_runtime
                    (Some (ActionParadigm.clear (ActionParadigm.collector p)))
                    (ActionParadigm.grammar p))).
  { unfold in_step. cbn. rewrite Hcur, Hcnt, Hhi, Hst.
    repeat (split; [reflexivity|]).
    eexists. split; [reflexivity|constructor]. }
  destruct (execute_in_step (c0 :: rest0) _ _ HR) as [HR' Herr].
  cbn [List.map] in HR', Herr.
  destruct (DslParser.execute (c0 :: rest0) (DslParser.reset g)) as [g' err].
  destruct (ActionParadigm.execute _ _) as [h' err'].
  cbn [fst snd] in *. subst err'.
  destruct HR' as (_ & _ & _ & _ & c & Hrt & HF). rewrite Hrt.
  destruct err as [e|]; [destruct (is_Exception e); reflexivity|].
  unfold DslParser.get_actions, ActionParadigm.get_actions.
  destruct (DslParser.actions g') as [|a rest];
    destruct (List.map ActionParadigm.api_action (ActionParadigm.actions c))
      as [|b rest']; cbn [snd]; try reflexivity;
    try (inversion HF; fail); exact HF.
Qed.

Lemma parsers_agree_witness :
  match snd (DslParser.parse_dsl
               [Samples.plain_track "a";
                NewClip (Some 1) None None None None None;
                SetMute true]
               Samples.fresh),
        snd (ActionParadigm.parse_dsl
               (List.map ActionParadigm.Handler
                  [Samples.plain_track "a";
                   NewClip (Some 1) None None None None None;
                   SetMute true])
               {| ActionParadigm.collector := ActionParadigm.collector_init;
                  ActionParadigm.grammar := Samples.afresh |}) with
  | Ok acts, Ok acts' => Forall2 (@Permutation (string * value)) acts acts'
  | Err e, Err e' => e = e'
  | _, _ => False
  end.
Proof.
  exact (parsers_agree
           [Samples.plain_track "a";
            NewClip (Some 1) None None None None None; SetMute true]
           Samples.fresh
           {| ActionParadigm.collector := ActionParadigm.collector_init;
              ActionParadigm.grammar := Samples.afresh |}
           eq_refl eq_refl eq_refl eq_refl).
Defined.

(** X11: the parser of the action paradigm clears its collector between
    parses but not its grammar, so track numbering carries over.  After a
    program with no explicit-index creation call has run without a handler
    error on a new parser, a second [parse_dsl] of a single plain [track()]
    returns a [create_track] whose index is the number of plain creation
    calls of the first program, not 0. *)
Theorem action_parser_numbering_carries_over :
  forall (prog : list call),
    Forall (fun c => is_indexed_creation c = false) prog ->
    snd (ActionParadigm.execute (List.map ActionParadigm.Handler prog)
           (ActionParadigm.grammar (ActionParadigm.parser_init true)))
      = None ->
    snd (ActionParadigm.parse_dsl
           [ActionParadigm.Handler (Track None None None None None)]
           (fst (ActionParadigm.parse_dsl
                   (List.map ActionParadigm.Handler prog)
                   (ActionParadigm.parser_init true))))
      = Ok [[("action", VStr "create_track");
             ("index", VInt (count_plain prog))]].
Proof.
  intros prog Hall Hok.
  destruct prog as [|c0 rest0]; [reflexivity|].
  assert (HR : in_step (DslParser.reset DslParser.__init__)
                 (ActionParadigm.grammar (ActionParadigm.parser_init true))).
  { unfold in_step. cbn. repeat (split; [reflexivity|]).
    eexists. split; [reflexivity|constructor]. }
  destruct (execute_in_step (c0 :: rest0) _ _ HR) as [HR' Herr].
  rewrite Hok in Herr.
  pose proof (execute_counter (c0 :: rest0)
                (DslParser.reset DslParser.__init__)) as Hc.
  destruct (DslParser.execute (c0 :: rest0)
              (DslParser.reset DslParser.__init__))
    as [g' err]. cbn [fst snd] in *. subst err.
  specialize (Hc g' Hall eq_refl). cbn [DslParser.track_counter] in Hc.
  unfold ActionParadigm.parse_dsl at 2.
  cbn [List.map] in *. cbv iota.
  change (ActionParadigm.set_runtime
            (Some (ActionParadigm.clear
                     (ActionParadigm.collector
                        (ActionParadigm.parser_init true))))
            (ActionParadigm.grammar (ActionParadigm.parser_init true)))
    with (ActionParadigm.grammar (ActionParadigm.parser_init true)).
  destruct (ActionParadigm.execute _ _) as [h' err'].
  cbn [fst snd] in *. subst err'.
  destruct HR' as (_ & Hcnt & _ & Hhi & c & Hrt & _).
  rewrite Hc in Hcnt.
  destruct h' as [rt acts cur cnt st dat hi]. cbn in Hcnt, Hhi, Hrt. subst.
  cbn [ActionParadigm._runtime].
  destruct (ActionParadigm.get_actions c); reflexivity.
Qed.

Lemma action_parser_numbering_carries_over_witness :
  snd (ActionParadigm.parse_dsl
         [ActionParadigm.Handler (Track None None None None None)]
         (fst (ActionParadigm.parse_dsl
                 (List.map ActionParadigm.Handler
                    [Samples.plain_track "a"; Samples.plain_track "b"])
                 (ActionParadigm.parser_init true))))
    = Ok [[("action", VStr "create_track");
           ("index", VInt (count_plain [Samples.plain_track "a";
                                        Samples.plain_track "b"]))]].
Proof.
  exact (action_parser_numbering_carries_over
           [Samples.plain_track "a"; Samples.plain_track "b"]
           ltac:(repeat constructor) eq_refl).
Defined.

End ParserAgreement.

(* ================================================================== *)
(** ** Track creation without a runtime *)
(* ================================================================== *)

Section RuntimeFacts.
Import Py Dsl ActionParadigm.

(** X12: in a grammar of the action paradigm built without a runtime but
    with an interpreter attached, a creation call of [track] binds the new
    index and advances the counter, yet stores its [create_track] action
    nowhere: both the grammar's own list and the sink stay as they were.
    The handlers that go through [_emit_action] do append to the grammar's
    list in that configuration. *)
Theorem track_creation_without_runtime_emits_nothing :
  forall (g : MagdaDSLGrammar) (instrument name : option string)
         (index : option Z) (selected : option bool),
    _runtime g = None ->
    has_interpreter g = true ->
    is_True selected = false ->
    exists g',
      track instrument name index None selected g = Ok g'
      /\ current_track_index g' =
           match index with Some k => k | None => track_counter g end
      /\ track_counter g' = current_track_index g' + 1
      /\ _actions g' = _actions g
      /\ sink g' = sink g
      /\ forall v g'',
           set_mute v g' = Ok g'' ->
           exists a, _actions g'' = _actions g ++ [a]
                     /\ kind a = "set_track_mute".
Proof.
  intros g instrument name index selected Hrt Hhi Hsel.
  destruct g as [rt acts cur cnt st dat hi]. cbn in Hrt, Hhi. subst.
  unfold track. rewrite Hsel. cbn.
  eexists. split; [reflexivity|]. cbn.
  repeat split; auto.
  intros v g'' H. unfold set_mute, set_field in H. cbn in H.
  destruct (_ <? 0); [discriminate|].
  inversion H; subst. cbn. eexists. split; reflexivity.
Qed.

Lemma track_creation_without_runtime_emits_nothing_witness :
  exists g',
    track (Some "Serum") None None None None (__init__ None true) = Ok g'
    /\ current_track_index g' = 0
    /\ track_counter g' = current_track_index g' + 1
    /\ _actions g' = []
    /\ sink g' = []
    /\ forall v g'',
         set_mute v g' = Ok g'' ->
         exists a, _actions g'' = [] ++ [a] /\ kind a = "set_track_mute".
Proof.
  exact (track_creation_without_runtime_emits_nothing (__init__ None true)
           (Some "Serum") None None None eq_refl eq_refl eq_refl).
Defined.

End RuntimeFacts.

(* ================================================================== *)
(** ** [str.rstrip] and the iteration variable *)
(* ================================================================== *)

Section RstripFacts.
Import Py Functional.

Fixpoint last_char (s : string) : option ascii :=
  match s with
  | EmptyString => None
  | String c EmptyString => Some c
  | String _ rest => last_char rest
  end.

(** Every character of [s] belongs to the set [cs]. *)
Fixpoint all_in (s cs : string) : bool :=
  match s with
  | EmptyString => true
  | String c rest => char_in c cs && all_in rest cs
  end.

(** [s] does not end in a character of [cs]. *)
Definition ends_clear (s cs : string) : bool :=
  match last_char s with
  | Some c => negb (char_in c cs)
  | None => true
  end.

Lemma last_char_some s : forall c, exists d, last_char (String c s) = Some d.
Proof.
  induction s as [|a rest IH]; intros c; [now exists c|].
  change (last_char (String c (String a rest)))
    with (last_char (String a rest)).
  apply IH.
Qed.

Lemma last_char_cons c s :
  last_char (String c s) =
    match last_char s with Some d => Some d | None => Some c end.
Proof.
  destruct s as [|d rest]; [reflexivity|].
  change (last_char (String c (String d rest)))
    with (last_char (String d rest)).
  destruct (last_char_some rest d) as [x Hx]. now rewrite Hx.
Qed.

Lemma last_char_none s : last_char s = None -> s = EmptyString.
Proof.
  destruct s as [|c rest]; [reflexivity|]. rewrite last_char_cons.
  destruct (last_char rest); discriminate.
Qed.

Lemma rstrip_ends_clear s cs : ends_clear (rstrip s cs) cs = true.
Proof.
  unfold ends_clear. induction s as [|c rest IH]; [reflexivity|].
  cbn [rstrip]. destruct (rstrip rest cs) as [|d r] eqn:E.
  - destruct (char_in c cs) eqn:Hc; cbn; [reflexivity|now rewrite Hc].
  - rewrite last_char_cons. destruct (last_char (String d r)) eqn:El.
    + exact IH.
    + apply last_char_none in El. discriminate.
Qed.

Lemma rstrip_all_in t cs : all_in t cs = true -> rstrip t cs = EmptyString.
Proof.
  induction t as [|c rest IH]; [reflexivity|].
  cbn. intros H. apply andb_prop in H as [Hc Hrest].
  now rewrite (IH Hrest), Hc.
Qed.

(** The stripped string is the part of [s] before its longest tail of
    characters of [cs]. *)
Lemma rstrip_app p t cs :
  p <> EmptyString ->
  ends_clear p cs = true ->
  all_in t cs = true ->
  rstrip (p ++ t) cs = p.
Proof.
  intros Hne Hend Hall. induction p as [|c rest IH]; [now elim Hne|].
  cbn [append rstrip].
  destruct rest as [|d r].
  - cbn [append]. rewrite (rstrip_all_in t cs Hall).
    unfold ends_clear in Hend. cbn in Hend.
    now destruct (char_in c cs).
  - rewrite IH; [reflexivity|discriminate|].
    unfold ends_clear in *. rewrite last_char_cons in Hend.
    destruct (last_char (String d r)) eqn:El; [exact Hend|].
    apply last_char_none in El. discriminate.
Qed.

Lemma append_empty (s : string) : (s ++ EmptyString)%string = s.
Proof. induction s as [|c r IH]; [reflexivity|]. cbn. now rewrite IH. Qed.

Lemma rstrip_decomposes s cs :
  exists t, s = (rstrip s cs ++ t)%string /\ all_in t cs = true.
Proof.
  induction s as [|c rest [t [Hs Ht]]]; [exists EmptyString; now split|].
  cbn [rstrip]. destruct (rstrip rest cs) as [|d r] eqn:E.
  - destruct (char_in c cs) eqn:Hc.
    + exists (String c t). cbn in *. rewrite Hc, Ht. now rewrite Hs at 1.
    + exists t. cbn in *. split; [now rewrite Hs at 1|exact Ht].
  - exists t. split; [|exact Ht]. cbn in *. now rewrite Hs at 1.
Qed.

(** [s.rstrip(cs)] as the embedding has it: the result is [s] with
    its longest tail of characters of [cs] cut off.  It is a prefix of
    [s], what was cut holds characters of [cs] only, the result does not
    end in a character of [cs], and stripping again changes nothing. *)
Theorem rstrip_cuts_longest_tail :
  forall (s cs : string),
    (exists t, s = (rstrip s cs ++ t)%string /\ all_in t cs = true)
    /\ ends_clear (rstrip s cs) cs = true
    /\ rstrip (rstrip s cs) cs = rstrip s cs.
Proof.
  intros s cs. split; [apply rstrip_decomposes|].
  split; [apply rstrip_ends_clear|].
  destruct (rstrip s cs) as [|c r] eqn:E; [reflexivity|].
  rewrite <- (append_empty (String c r)) at 1.
  apply rstrip_app; [discriminate| |reflexivity].
  rewrite <- E. apply rstrip_ends_clear.
Qed.

(** X14: the iteration variable [filter], [map] and [for_each] derive never
    ends in one of the characters [_], [c], [h], [a], [i], [n].  So a
    predicate written with a variable such as [plugin], [region] or [data]
    is bound for no collection name. *)
Theorem iter_var_never_ends_in_chain_letter :
  forall (collection var : string),
    ends_clear var "_chain" = false ->
    iter_var_of collection <> var.
Proof.
  intros collection var Hvar Heq.
  pose proof (rstrip_ends_clear (rstrip collection "s") "_chain") as H.
  unfold iter_var_of in Heq. rewrite Heq in H. rewrite H in Hvar.
  discriminate.
Qed.

Lemma iter_var_never_ends_in_chain_letter_witness :
  iter_var_of "plugins" <> "plugin" /\ iter_var_of "regions" <> "region".
Proof.
  split.
  - exact (iter_var_never_ends_in_chain_letter "plugins" "plugin" eq_refl).
  - exact (iter_var_never_ends_in_chain_letter "regions" "region" eq_refl).
Defined.

(** X15: where the derivation does what its comment says.  For a
    collection name made of a base and a final [s], where the base does not
    end in [s] nor in a character of [_chain], the variable is the base. *)
Theorem iter_var_of_plural :
  forall (base : string),
    base <> EmptyString ->
    ends_clear base "s" = true ->
    ends_clear base "_chain" = true ->
    iter_var_of (base ++ "s") = base.
Proof.
  intros base Hne Hs Hchain. unfold iter_var_of.
  rewrite (rstrip_app base "s" "s" Hne Hs eq_refl).
  rewrite <- (append_empty base) at 1.
  apply rstrip_app; [exact Hne|exact Hchain|reflexivity].
Qed.

Lemma iter_var_of_plural_witness :
  iter_var_of ("track" ++ "s") = "track".
Proof.
  exact (iter_var_of_plural "track" ltac:(discriminate) eq_refl eq_refl).
Defined.

End RstripFacts.

(* ================================================================== *)
(** ** Property paths, operators and [filter] on pure predicates *)
(* ================================================================== *)

Section EvaluatorFacts.
Import Py Functional.
Context {B : Builtins}.

Lemma navigate_app_eq p1 : forall v p2,
  navigate v (p1 ++ p2) =
    match navigate v p1 with
    | Ok v' => navigate v' p2
    | Err e => Err e
    end.
Proof.
  induction p1 as [|p rest IH]; intros v p2; [reflexivity|].
  cbn [app navigate].
  destruct (py_getattr v p); [apply IH|].
  destruct v; try reflexivity; [|apply IH].
  destruct (isdigit p); [|reflexivity].
  destruct (nth_error _ _); [apply IH|reflexivity].
Qed.

(** X16: a property path is walked segment by segment with no partial
    result: walking [p1 ++ p2] is walking [p1] and then [p2] from where
    [p1] arrived, and an error inside [p1] is the error of the whole
    path, whatever [p2] is. *)
Theorem navigate_composes :
  forall (v : value) (p1 p2 : list string),
    navigate v (p1 ++ p2) =
      match navigate v p1 with
      | Ok v' => navigate v' p2
      | Err e => Err e
      end.
Proof. intros v p1 p2. apply navigate_app_eq. Qed.

(** X17: a key missing from a dict is no error where it is read: the walk
    goes on with [None], and it is the next segment that fails, naming
    [NoneType] and not the missing key. *)
Theorem missing_key_fails_one_segment_late :
  forall (d : dict) (k next : string) (rest : list string),
    py_getattr (VDict d) k = None ->
    dict_get d k = None ->
    py_getattr VNone next = None ->
    navigate (VDict d) [k] = Ok VNone
    /\ navigate (VDict d) (k :: next :: rest)
       = Err (Raise ValueError
                ("Property '" ++ next ++ "' not found on NoneType")).
Proof.
  intros d k next rest Hattr Hget Hnone.
  cbn [navigate]. rewrite Hattr. unfold dict_get_default. rewrite Hget.
  rewrite Hnone. split; reflexivity.
Qed.

(** X18: [and] and [or] return one of their operands, not a boolean: when
    both operands evaluate, [l and r] is [l] if [l] is falsy and [r]
    otherwise, [l or r] is [l] if [l] is truthy and [r] otherwise; the
    truth value of the result is the conjunction, respectively the
    disjunction, of the operands' truth values. *)
Theorem and_or_return_an_operand :
  forall (g : ReaperDSLGrammar) (l r : node) (lv rv : value),
    _evaluate_value g l = Ok lv ->
    _evaluate_value g r = Ok rv ->
    _evaluate_expression g l (Some "and") (Some r)
      = Ok (if truthy lv then rv else lv)
    /\ _evaluate_expression g l (Some "or") (Some r)
      = Ok (if truthy lv then lv else rv)
    /\ truthy (if truthy lv then rv else lv) = truthy lv && truthy rv
    /\ truthy (if truthy lv then lv else rv) = truthy lv || truthy rv.
Proof.
  intros g l r lv rv Hl Hr.
  unfold _evaluate_expression, evaluate_expression_with.
  rewrite Hl, Hr. cbn.
  repeat split; destruct (truthy lv) eqn:E; cbn; auto.
Qed.

(** Whether [filter] keeps an item under an AST predicate. *)
Definition keeps (iter_var : string) (n : node) (g : ReaperDSLGrammar)
    (item : value) : bool :=
  match _evaluate_value (set_iteration_context [(iter_var, item)] g) n with
  | Ok v => truthy v
  | Err _ => false
  end.

(** No item makes the predicate raise something that is not an
    [Exception]. *)
Definition raises_exceptions_only (iter_var : string) (n : node)
    (g : ReaperDSLGrammar) (items : list value) : Prop :=
  forall item e,
    In item items ->
    _evaluate_value (set_iteration_context [(iter_var, item)] g) n = Err e ->
    is_Exception e = true.

Lemma filter_loop_pure iv n items : forall acc g,
  raises_exceptions_only iv n g items ->
  filter_loop iv (PredNode n) items acc g =
    (Ok (acc ++ List.filter (keeps iv n g) items),
     match items with [] => g | _ => clear_iteration_context g end).
Proof.
  induction items as [|x rest IH]; intros acc g Hexc.
  - cbn. now rewrite app_nil_r.
  - cbn [filter_loop List.filter]. unfold with_iteration_context.
    cbn [eval_predicate].
    assert (Hrest : raises_exceptions_only iv n
                      (clear_iteration_context
                         (set_iteration_context [(iv, x)] g)) rest).
    { intros item e Hin He. apply (Hexc item e); [now right|exact He]. }
    unfold keeps at 1.
    destruct (_evaluate_value (set_iteration_context [(iv, x)] g) n)
      as [v|e] eqn:Ev.
    + rewrite (IH _ _ Hrest).
      destruct (truthy v); cbn [app];
        rewrite <- ?app_assoc; destruct rest; reflexivity.
    + rewrite (Hexc x e (or_introl eq_refl) Ev).
      rewrite (IH _ _ Hrest). destruct rest; reflexivity.
Qed.

(** X19: [filter] with an AST predicate over a stored list returns the
    items on which the predicate evaluates to a truthy value, in their
    order; an item on which it raises an [Exception] is left out like an
    item on which it is falsy.  The grammar is as before except for the
    emptied iteration context. *)
Theorem filter_keeps_truthy_items_in_order :
  forall (name : string) (n : node) (g : ReaperDSLGrammar)
         (items : list value),
    dict_get (data g) name = Some (VList items) ->
    raises_exceptions_only (iter_var_of name) n g items ->
    filter (VStr name) (PredNode n) g =
      (Ok (List.filter (keeps (iter_var_of name) n g) items),
       match items with [] => g | _ => clear_iteration_context g end).
Proof.
  intros name n g items Hdata Hexc.
  unfold filter, resolve_collection, dict_get_default. rewrite Hdata.
  now rewrite (filter_loop_pure _ n items [] g Hexc).
Qed.

End EvaluatorFacts.

(* ================================================================== *)
(** ** dsl_parser_functional.py: the snapshot accessors and [reduce] *)
(* ================================================================== *)

Module FunctionalState.
Import Py Functional.

(** [k in v] for a string [k]: key membership in a dict, an equal element
    in a list, a substring of a string; the other values are no container. *)
Definition py_contains_str (k : string) (v : value) : result bool :=
  match v with
  | VDict d => Ok (dict_contains d k)
  | VList l =>
      Ok (existsb (fun x => match x with
                            | VStr t => String.eqb t k
                            | _ => false
                            end) l)
  | VStr s => Ok (match String.index 0 k s with Some _ => true | None => false end)
  | _ => Err (Raise TypeError
                ("argument of type '" ++ type_name v ++ "' is not iterable"))
  end.

(** [v[k]] for a string [k]. *)
Definition py_getitem_str (v : value) (k : string) : result value :=
  match v with
  | VDict d =>
      match dict_get d k with
      | Some x => Ok x
      | None => Err (Raise OtherException ("KeyError: '" ++ k ++ "'"))
      end
  | VList _ =>
      Err (Raise TypeError "list indices must be integers or slices, not str")
  | VStr _ => Err (Raise TypeError "string indices must be integers, not 'str'")
  | _ => Err (Raise TypeError
                ("'" ++ type_name v ++ "' object is not subscriptable"))
  end.

(** [len(v)]. *)
Definition py_len (v : value) : result Z :=
  match v with
  | VList l => Ok (Z.of_nat (List.length l))
  | VDict d => Ok (Z.of_nat (List.length d))
  | VStr s => Ok (Z.of_nat (String.length s))
  | _ => Err (Raise TypeError
                ("object of type '" ++ type_name v ++ "' has no len()"))
  end.

(** [v[i]] for an integer [i] with [0 <= i < len(v)]. *)
Definition py_getitem_int (v : value) (i : Z) : result value :=
  match v with
  | VList l =>
      match nth_error l (Z.to_nat i) with
      | Some x => Ok x
      | None => Err (Raise IndexError "list index out of range")
      end
  | VStr s =>
      match String.get (Z.to_nat i) s with
      | Some c => Ok (VStr (String c EmptyString))
      | None => Err (Raise IndexError "string index out of range")
      end
  | VDict _ => Err (Raise OtherException "KeyError")
  | _ => Err (Raise TypeError
                ("'" ++ type_name v ++ "' object is not subscriptable"))
  end.

Definition with_state (st : dict) (g : ReaperDSLGrammar) : ReaperDSLGrammar :=
  {| current_track_index := current_track_index g;
     track_counter := track_counter g; state := Some st; data := data g;
     _actions := _actions g; _iteration_context := _iteration_context g |}.

(** [if k in state_map: self.data[k] = state_map[k]]. *)
Definition copy_key (k : string) (state_map : value) (g : ReaperDSLGrammar)
  : result unit * ReaperDSLGrammar :=
  match py_contains_str k state_map with
  | Err e => (Err e, g)
  | Ok false => (Ok tt, g)
  | Ok true =>
      match py_getitem_str state_map k with
      | Err e => (Err e, g)
      | Ok v => (Ok tt, store k v g)
      end
  end.

(** [ReaperDSLGrammar.set_state]. *)
Definition set_state (st : dict) (g : ReaperDSLGrammar)
  : result unit * ReaperDSLGrammar :=
  let g0 := with_state st g in
  match st with
  | [] => (Ok tt, g0)
  | _ =>
      let state_map := dict_get_default st "state" (VDict st) in
      match copy_key "tracks" state_map g0 with
      | (Err e, g1) => (Err e, g1)
      | (Ok _, g1) => copy_key "clips" state_map g1
      end
  end.

Definition get_tracks (g : ReaperDSLGrammar)
  : result value * ReaperDSLGrammar :=
  match state g with
  | None => (Ok (VList []), g)
  | Some st =>
      let state_map := dict_get_default st "state" (VDict st) in
      match py_get state_map "tracks" (VList []) with
      | Err e => (Err e, g)
      | Ok tracks => (Ok tracks, store "tracks" tracks g)
      end
  end.

(** The common body of [get_fx_chain] and [get_clips]: [field] is ["fx"] or
    ["clips"], [slot] the name the result is stored under. *)
Definition get_track_field (field slot : string) (track_index : option Z)
    (g : ReaperDSLGrammar) : result value * ReaperDSLGrammar :=
  let track_index := match track_index with
                     | Some i => i
                     | None => current_track_index g
                     end in
  match state g with
  | None => (Ok (VList []), g)
  | Some st =>
      if track_index <? 0 then (Ok (VList []), g)
      else
        let state_map := dict_get_default st "state" (VDict st) in
        match
          (do tracks <- py_get state_map "tracks" (VList []);
           do n <- py_len tracks;
           if track_index >=? n then Ok None
           else
             do track <- py_getitem_int tracks track_index;
             do found <- py_get track field (VList []);
             Ok (Some found))
        with
        | Err e => (Err e, g)
        | Ok None => (Ok (VList []), g)
        | Ok (Some found) => (Ok found, store slot found g)
        end
  end.

Definition get_fx_chain : option Z -> ReaperDSLGrammar
                          -> result value * ReaperDSLGrammar :=
  get_track_field "fx" "fx_chain".

Definition get_clips : option Z -> ReaperDSLGrammar
                       -> result value * ReaperDSLGrammar :=
  get_track_field "clips" "clips".

(** A callable applied to two arguments, as [functools.reduce] applies its
    function. *)
Definition callable2 : Type :=
  value -> value -> ReaperDSLGrammar -> result value * ReaperDSLGrammar.

(** The function argument of [reduce]. *)
Inductive reducer : Type :=
| ReducerStr (s : string)
| ReducerCallable (f : callable2)
| ReducerValue (v : value).

(** [functools.reduce(func, items, initial)]. *)
Fixpoint reduce_loop (func : callable2) (items : list value) (acc : value)
    (g : ReaperDSLGrammar) : result value * ReaperDSLGrammar :=
  match items with
  | [] => (Ok acc, g)
  | item :: rest =>
      match func acc item g with
      | (Ok acc', g') => reduce_loop func rest acc' g'
      | (Err e, g') => (Err e, g')
      end
  end.

Section Reduce.
Context {B : Builtins}.

(** How the attribute of the grammar found under a name behaves when it is
    called with two arguments. *)
Variable attr_call2 : string -> callable2.

Definition resolve_reducer (func : reducer) (g : ReaperDSLGrammar)
  : result callable2 :=
  match func with
  | ReducerStr s =>
      let func_name := lstrip s "@" in
      match getattr_dsl func_name g with
      | AttrMissing => Err (Raise ValueError ("Unknown function: " ++ func_name))
      | AttrData v =>
          Err (Raise ValueError
                 ("Function must be callable, got " ++ type_name v))
      | AttrCallable _ => Ok (attr_call2 func_name)
      end
  | ReducerCallable f => Ok f
  | ReducerValue v =>
      Err (Raise ValueError ("Function must be callable, got " ++ type_name v))
  end.

Definition reduce (func : reducer) (collection : value) (initial : value)
    (g : ReaperDSLGrammar) : result value * ReaperDSLGrammar :=
  let actual_collection :=
    match collection with
    | VStr name => dict_get_default (data g) name (VList [])
    | _ => collection
    end in
  match actual_collection with
  | VList items =>
      match resolve_reducer func g with
      | Ok f => reduce_loop f items initial g
      | Err e => (Err e, g)
      end
  | _ => (not_a_list actual_collection, g)
  end.

End Reduce.

End FunctionalState.

(* ================================================================== *)
(** ** Properties of the data store and the snapshot accessors *)
(* ================================================================== *)

Section FunctionalStateFacts.
Import Py Dsl Functional FunctionalState.

(** X20: [store] and the lookup of a collection name are a round trip:
    after [store(name, v)] the name resolves to [v], a second [store]
    under the same name replaces the value, and every other name resolves
    as before. *)
Theorem store_then_resolve :
  forall (name : string) (v : value) (g : ReaperDSLGrammar)
         (iter_var_for : string -> string),
    resolve_collection iter_var_for (VStr name) (store name v g)
      = (v, iter_var_for name)
    /\ (forall v',
          resolve_collection iter_var_for (VStr name)
            (store name v' (store name v g)) = (v', iter_var_for name))
    /\ (forall other,
          String.eqb name other = false ->
          resolve_collection iter_var_for (VStr other) (store name v g)
            = resolve_collection iter_var_for (VStr other) g).
Proof.
  intros name v g f. unfold resolve_collection, dict_get_default, store.
  cbn [data]. repeat split.
  - now rewrite dict_get_set_same.
  - intros v'. now rewrite dict_get_set_same.
  - intros other Hne. now rewrite dict_get_set_other.
Qed.

(** A snapshot whose (optionally wrapped) content is the dict [d]. *)
Definition state_map_is (st d : dict) : Prop :=
  dict_get_default st "state" (VDict st) = VDict d.

Lemma copy_key_dict k d g :
  copy_key k (VDict d) g =
    (Ok tt, match dict_get d k with Some v => store k v g | None => g end).
Proof.
  unfold copy_key, py_contains_str, dict_contains, py_getitem_str.
  now destruct (dict_get d k).
Qed.

(** X21: [set_state] on a snapshot that is not empty and whose content is a
    dict records the snapshot and copies its ["tracks"] and ["clips"]
    entries into the data store.  An entry the snapshot lacks is not
    cleared: the value stored before stays, and no other name changes. *)
Theorem set_state_copies_tracks_and_clips :
  forall (st d : dict) (g : ReaperDSLGrammar),
    st <> [] ->
    state_map_is st d ->
    exists g',
      set_state st g = (Ok tt, g')
      /\ state g' = Some st
      /\ dict_get (data g') "tracks"
         = match dict_get d "tracks" with
           | Some t => Some t
           | None => dict_get (data g) "tracks"
           end
      /\ dict_get (data g') "clips"
         = match dict_get d "clips" with
           | Some c => Some c
           | None => dict_get (data g) "clips"
           end
      /\ (forall other,
            String.eqb "tracks" other = false ->
            String.eqb "clips" other = false ->
            dict_get (data g') other = dict_get (data g) other)
      /\ _iteration_context g' = _iteration_context g
      /\ current_track_index g' = current_track_index g.
Proof.
  intros st d g Hne Hmap. unfold set_state.
  destruct st as [|x rest]; [now elim Hne|].
  unfold state_map_is in Hmap. rewrite Hmap.
  rewrite !copy_key_dict.
  eexists. split; [reflexivity|].
  destruct (dict_get d "tracks") as [t|], (dict_get d "clips") as [c|];
    cbn [state data store with_state _iteration_context current_track_index];
    repeat split; intros;
    rewrite ?dict_get_set_same, ?dict_get_set_other by (reflexivity || assumption);
    rewrite ?dict_get_set_same; reflexivity.
Qed.

Lemma set_state_copies_tracks_and_clips_witness :
  exists g',
    set_state Samples.snapshot (store "clips" (VList [VInt 7]) __init__)
      = (Ok tt, g')
    /\ dict_get (data g') "tracks" = Some FunctionalSamples.tracks
    /\ dict_get (data g') "clips" = Some (VList [VInt 7]).
Proof.
  destruct (set_state_copies_tracks_and_clips Samples.snapshot
              [("tracks", FunctionalSamples.tracks)]
              (store "clips" (VList [VInt 7]) __init__)
              ltac:(discriminate) eq_refl)
    as [g' [Hrun [_ [Ht [Hc _]]]]].
  exists g'. repeat split; assumption.
Defined.

(** X22: [get_tracks] on a snapshot whose content is a dict returns the
    ["tracks"] entry (an empty list when there is none), stores it under
    ["tracks"], where [filter], [map] and [for_each] then find it with the
    variable [track]; when the entry is a list, the index
    [_get_selected_track_index] reports for the same snapshot is [-1] if no
    entry of that list is selected and otherwise the position, inside that
    list, of an entry that is selected.  Without a snapshot it returns an
    empty list and leaves the store alone. *)
Theorem get_tracks_feeds_the_combinators :
  forall (st d : dict) (g : ReaperDSLGrammar),
    state g = Some st ->
    state_map_is st d ->
    let tracks := dict_get_default d "tracks" (VList []) in
    get_tracks g = (Ok tracks, store "tracks" tracks g)
    /\ resolve_collection iter_var_of (VStr "tracks") (snd (get_tracks g))
       = (tracks, "track")
    /\ (forall l, tracks = VList l ->
          exists i,
            selected_track_index (Some st) = Ok i
            /\ i = first_selected l 0
            /\ ((i = -1 /\ forall t, In t l -> is_selected t = false)
                \/ (0 <= i < Z.of_nat (List.length l)
                    /\ exists t,
                         nth_error l (Z.to_nat i) = Some t
                         /\ is_selected t = true)))
    /\ (forall g0, state g0 = None -> get_tracks g0 = (Ok (VList []), g0)).
Proof.
  intros st d g Hst Hmap tracks. unfold state_map_is in Hmap.
  assert (Hrun : get_tracks g = (Ok tracks, store "tracks" tracks g)).
  { unfold get_tracks. rewrite Hst, Hmap. reflexivity. }
  split; [exact Hrun|]. split; [|split].
  - rewrite Hrun. cbn [snd].
    unfold resolve_collection, dict_get_default, store. cbn [data].
    now rewrite dict_get_set_same.
  - intros l Hl. exists (first_selected l 0). split; [|split].
    + unfold selected_track_index. rewrite Hmap.
      unfold py_get. fold tracks. rewrite Hl. reflexivity.
    + reflexivity.
    + destruct (Z.eq_dec (first_selected l 0) (-1)) as [E|E].
      * left. split; [exact E|].
        exact (first_selected_none l 0 ltac:(lia) E).
      * right.
        destruct (first_selected_range l 0 ltac:(lia)) as [H|H];
          [contradiction|].
        split; [lia|].
        destruct (first_selected_found l 0 ltac:(lia) E) as [t [Ht [Hsel _]]].
        rewrite Z.sub_0_r in Ht. exists t. split; assumption.
  - intros g0 H0. unfold get_tracks. now rewrite H0.
Qed.

Lemma get_tracks_feeds_the_combinators_witness :
  get_tracks (FunctionalState.with_state Samples.snapshot __init__)
    = (Ok FunctionalSamples.tracks,
       store "tracks" FunctionalSamples.tracks
             (FunctionalState.with_state Samples.snapshot __init__)).
Proof.
  exact (proj1 (get_tracks_feeds_the_combinators Samples.snapshot
                  [("tracks", FunctionalSamples.tracks)]
                  (FunctionalState.with_state Samples.snapshot __init__)
                  eq_refl eq_refl)).
Defined.

(** The snapshot of [g] holds the track list [l]. *)
Definition holds_tracks (g : ReaperDSLGrammar) (l : list value) : Prop :=
  exists st d, state g = Some st
               /\ state_map_is st d
               /\ dict_get d "tracks" = Some (VList l).

Lemma get_track_field_out_of_range field slot g l i :
  holds_tracks g l ->
  i < 0 \/ Z.of_nat (List.length l) <= i ->
  get_track_field field slot (Some i) g = (Ok (VList []), g).
Proof.
  intros (st & d & Hst & Hmap & Hl) Hi.
  unfold get_track_field. rewrite Hst.
  destruct (i <? 0) eqn:Hneg; [reflexivity|].
  apply Z.ltb_ge in Hneg. unfold state_map_is in Hmap. rewrite Hmap.
  unfold py_get, dict_get_default. rewrite Hl. cbn [bind py_len].
  replace (i >=? Z.of_nat (List.length l)) with true; [reflexivity|].
  symmetry. rewrite Z.geb_leb. apply Z.leb_le. lia.
Qed.

Lemma get_track_field_in_range field slot g l i d :
  holds_tracks g l ->
  0 <= i ->
  nth_error l (Z.to_nat i) = Some (VDict d) ->
  get_track_field field slot (Some i) g =
    (Ok (dict_get_default d field (VList [])),
     store slot (dict_get_default d field (VList [])) g).
Proof.
  intros (st & d0 & Hst & Hmap & Hl) Hi Hnth.
  unfold get_track_field. rewrite Hst.
  replace (i <? 0) with false by (symmetry; apply Z.ltb_ge; exact Hi).
  unfold state_map_is in Hmap. rewrite Hmap.
  unfold py_get at 1. unfold dict_get_default at 1. rewrite Hl.
  cbn [bind py_len].
  assert (Hlt : (Z.to_nat i < List.length l)%nat)
    by (apply nth_error_Some; rewrite Hnth; discriminate).
  replace (i >=? Z.of_nat (List.length l)) with false.
  - unfold py_getitem_int. rewrite Hnth. reflexivity.
  - symmetry. rewrite Z.geb_leb. apply Z.leb_gt. lia.
Qed.

(** X23: [get_fx_chain] never indexes outside the track list.  For a
    negative index (an unbound grammar included, when no index is given)
    and for an index past the end it returns an empty list and leaves the
    data store as it was, so an ["fx_chain"] stored for another track
    stays; for the index of a track dict it returns that track's ["fx"]
    entry (empty when absent) and stores it under ["fx_chain"], where the
    combinators find it with the variable [fx]. *)
Theorem get_fx_chain_is_bounds_checked :
  forall (g : ReaperDSLGrammar) (l : list value),
    holds_tracks g l ->
    (forall i, i < 0 \/ Z.of_nat (List.length l) <= i ->
               get_fx_chain (Some i) g = (Ok (VList []), g))
    /\ (current_track_index g < 0 ->
        get_fx_chain None g = (Ok (VList []), g))
    /\ (forall i d,
          0 <= i ->
          nth_error l (Z.to_nat i) = Some (VDict d) ->
          let fx := dict_get_default d "fx" (VList []) in
          get_fx_chain (Some i) g = (Ok fx, store "fx_chain" fx g)
          /\ resolve_collection iter_var_of (VStr "fx_chain")
               (store "fx_chain" fx g) = (fx, "fx")).
Proof.
  intros g l H. split; [|split].
  - intros i Hi. exact (get_track_field_out_of_range "fx" "fx_chain" g l i H Hi).
  - intros Hneg.
    exact (get_track_field_out_of_range "fx" "fx_chain" g l
             (current_track_index g) H (or_introl Hneg)).
  - intros i d Hi Hnth fx. split.
    + exact (get_track_field_in_range "fx" "fx_chain" g l i d H Hi Hnth).
    + unfold resolve_collection, dict_get_default, store. cbn [data].
      now rewrite dict_get_set_same.
Qed.

Definition drums_with_fx : value :=
  VDict [("index", VInt 0); ("name", VStr "Drums"); ("selected", VBool false);
         ("fx", VList [VDict [("name", VStr "ReaEQ"); ("enabled", VBool true)]]);
         ("clips", VList [VDict [("start", VFloat 0.0); ("name", VStr "Kick")]])].

Definition one_track_grammar : ReaperDSLGrammar :=
  FunctionalState.with_state [("tracks", VList [drums_with_fx])] __init__.

Lemma one_track_grammar_holds : holds_tracks one_track_grammar [drums_with_fx].
Proof. eexists. eexists. repeat split; reflexivity. Qed.

Lemma get_fx_chain_is_bounds_checked_witness :
  get_fx_chain (Some 1) one_track_grammar = (Ok (VList []), one_track_grammar)
  /\ get_fx_chain None one_track_grammar = (Ok (VList []), one_track_grammar)
  /\ fst (get_fx_chain (Some 0) one_track_grammar)
     = Ok (VList [VDict [("name", VStr "ReaEQ"); ("enabled", VBool true)]]).
Proof.
  destruct (get_fx_chain_is_bounds_checked one_track_grammar [drums_with_fx]
              one_track_grammar_holds) as [Hout [Hnone Hin]].
  split; [exact (Hout 1 ltac:(right; cbn; lia))|].
  split; [exact (Hnone ltac:(cbn; lia))|].
  destruct (Hin 0 _ ltac:(lia) eq_refl) as [Hrun _].
  rewrite Hrun. reflexivity.
Defined.

(** X24: [get_clips] is bounds-checked in the same way, reads the track's
    ["clips"] entry and stores it under ["clips"], where the combinators
    find it with the variable [clip]. *)
Theorem get_clips_is_bounds_checked :
  forall (g : ReaperDSLGrammar) (l : list value),
    holds_tracks g l ->
    (forall i, i < 0 \/ Z.of_nat (List.length l) <= i ->
               get_clips (Some i) g = (Ok (VList []), g))
    /\ (current_track_index g < 0 ->
        get_clips None g = (Ok (VList []), g))
    /\ (forall i d,
          0 <= i ->
          nth_error l (Z.to_nat i) = Some (VDict d) ->
          let clips := dict_get_default d "clips" (VList []) in
          get_clips (Some i) g = (Ok clips, store "clips" clips g)
          /\ resolve_collection iter_var_of (VStr "clips")
               (store "clips" clips g) = (clips, "clip")).
Proof.
  intros g l H. split; [|split].
  - intros i Hi. exact (get_track_field_out_of_range "clips" "clips" g l i H Hi).
  - intros Hneg.
    exact (get_track_field_out_of_range "clips" "clips" g l
             (current_track_index g) H (or_introl Hneg)).
  - intros i d Hi Hnth clips. split.
    + exact (get_track_field_in_range "clips" "clips" g l i d H Hi Hnth).
    + unfold resolve_collection, dict_get_default, store. cbn [data].
      now rewrite dict_get_set_same.
Qed.

Lemma get_clips_is_bounds_checked_witness :
  get_clips (Some 5) one_track_grammar = (Ok (VList []), one_track_grammar)
  /\ fst (get_clips (Some 0) one_track_grammar)
     = Ok (VList [VDict [("start", VFloat 0.0); ("name", VStr "Kick")]]).
Proof.
  destruct (get_clips_is_bounds_checked one_track_grammar [drums_with_fx]
              one_track_grammar_holds) as [Hout [_ Hin]].
  split; [exact (Hout 5 ltac:(right; cbn; lia))|].
  destruct (Hin 0 _ ltac:(lia) eq_refl) as [Hrun _].
  rewrite Hrun. reflexivity.
Defined.

End FunctionalStateFacts.

(* ================================================================== *)
(** ** [reduce] *)
(* ================================================================== *)

Section ReduceFacts.
Import Py Functional FunctionalState.
Context {B : Builtins}.
Variable attr_call2 : string -> callable2.

Lemma reduce_loop_app f l1 : forall l2 acc g,
  reduce_loop f (l1 ++ l2) acc g =
    match reduce_loop f l1 acc g with
    | (Ok acc1, g1) => reduce_loop f l2 acc1 g1
    | (Err e, g1) => (Err e, g1)
    end.
Proof.
  induction l1 as [|x rest IH]; intros l2 acc g; [reflexivity|].
  cbn [app reduce_loop].
  destruct (f acc x g) as [[acc'|e] g']; [apply IH|reflexivity].
Qed.

Lemma reduce_loop_keeps_context f items : forall acc g,
  (forall a b h, _iteration_context (snd (f a b h)) = _iteration_context h) ->
  _iteration_context (snd (reduce_loop f items acc g)) = _iteration_context g.
Proof.
  induction items as [|x rest IH]; intros acc g Hf; [reflexivity|].
  cbn [reduce_loop]. pose proof (Hf acc x g) as Hx.
  destruct (f acc x g) as [[acc'|e] g']; cbn [snd] in *.
  - now rewrite IH.
  - exact Hx.
Qed.

Lemma reduce_loop_pure f op items : forall acc g,
  (forall a b h, f a b h = (Ok (op a b), h)) ->
  reduce_loop f items acc g = (Ok (fold_left op items acc), g).
Proof.
  induction items as [|x rest IH]; intros acc g Hf; [reflexivity|].
  cbn [reduce_loop fold_left]. rewrite Hf. now apply IH.
Qed.

(** X25: [reduce] is a left fold that stops at the first error.  On an
    empty list it returns the initial value; on [x :: post] it applies the
    function to the initial value and [x] and goes on over [post] from what
    the function returned; over [pre ++ post] it folds [pre] and goes on
    over [post] from the value reached; with a function that always returns
    [op a b] the result is [fold_left op] of the list.  If the function
    raises on an item, [reduce] raises that error whatever follows, where
    [map] would skip the item; it installs no iteration binding of its own;
    and a collection name that was never stored gives the initial value
    back. *)
Theorem reduce_folds_left_and_stops_at_errors :
  forall (f : callable2) (pre post : list value) (initial : value)
         (g : ReaperDSLGrammar),
    reduce attr_call2 (ReducerCallable f) (VList []) initial g
      = (Ok initial, g)
    /\ (forall x acc' g',
          f initial x g = (Ok acc', g') ->
          reduce attr_call2 (ReducerCallable f) (VList (x :: post)) initial g
            = reduce attr_call2 (ReducerCallable f) (VList post) acc' g')
    /\ (forall acc1 g1,
          reduce attr_call2 (ReducerCallable f) (VList pre) initial g
            = (Ok acc1, g1) ->
          reduce attr_call2 (ReducerCallable f) (VList (pre ++ post)) initial g
            = reduce attr_call2 (ReducerCallable f) (VList post) acc1 g1)
    /\ (forall op,
          (forall a b h, f a b h = (Ok (op a b), h)) ->
          reduce attr_call2 (ReducerCallable f) (VList pre) initial g
            = (Ok (fold_left op pre initial), g))
    /\ reduce_loop f (pre ++ post) initial g
      = match reduce_loop f pre initial g with
        | (Ok acc1, g1) => reduce_loop f post acc1 g1
        | (Err e, g1) => (Err e, g1)
        end
    /\ (forall x acc1 g1 e g2,
          reduce_loop f pre initial g = (Ok acc1, g1) ->
          f acc1 x g1 = (Err e, g2) ->
          reduce attr_call2 (ReducerCallable f) (VList (pre ++ x :: post))
                 initial g = (Err e, g2))
    /\ ((forall a b h,
            _iteration_context (snd (f a b h)) = _iteration_context h) ->
        _iteration_context
          (snd (reduce attr_call2 (ReducerCallable f) (VList (pre ++ post))
                       initial g))
        = _iteration_context g)
    /\ (forall name,
          dict_get (data g) name = None ->
          reduce attr_call2 (ReducerCallable f) (VStr name) initial g
            = (Ok initial, g)).
Proof.
  intros f pre post initial g.
  split; [reflexivity|]. split; [|split; [|split]].
  - intros x acc' g' Hx. cbn [reduce resolve_reducer reduce_loop].
    now rewrite Hx.
  - intros acc1 g1 Hpre. cbn [reduce resolve_reducer] in *.
    now rewrite reduce_loop_app, Hpre.
  - intros op Hf. cbn [reduce resolve_reducer].
    now apply reduce_loop_pure.
  - split; [apply reduce_loop_app|]. split; [|split].
    + intros x acc1 g1 e g2 Hpre Hx. cbn [reduce resolve_reducer].
      rewrite reduce_loop_app, Hpre. cbn [reduce_loop]. now rewrite Hx.
    + intros Hf. cbn [reduce resolve_reducer].
      now apply reduce_loop_keeps_context.
    + intros name Hno. unfold reduce, dict_get_default. now rewrite Hno.
Qed.

End ReduceFacts.

(* ================================================================== *)
(** ** dsl_parser_action_paradigm.py: [map], [filter], [reduce] *)
(* ================================================================== *)

Module ActionParadigmFunctional.
Import Py ActionParadigm.

Definition callable : Type :=
  value -> MagdaDSLGrammar -> result value * MagdaDSLGrammar.

Definition callable2 : Type :=
  value -> value -> MagdaDSLGrammar -> result value * MagdaDSLGrammar.

(** A function or predicate argument, by the tests the methods make. *)
Inductive func_arg : Type :=
| FuncStr (s : string)
| FuncCallable (f : callable)
| FuncValue (v : value).

Inductive predicate_arg : Type :=
| PredBool (b : bool)
| PredCallable (f : callable)
| PredValue (v : value).

Inductive reducer_arg : Type :=
| ReducerCallable (f : callable2)
| ReducerValue (v : value).

(** [self.data.get(data, data) if isinstance(data, str) else data]. *)
Definition resolve_data (data_arg : value) (g : MagdaDSLGrammar) : value :=
  match data_arg with
  | VStr name => dict_get_default (data g) name data_arg
  | _ => data_arg
  end.

(** [[func(item) for item in items]]. *)
Fixpoint map_items (func : callable) (items : list value)
    (results : list value) (g : MagdaDSLGrammar)
  : result (list value) * MagdaDSLGrammar :=
  match items with
  | [] => (Ok results, g)
  | item :: rest =>
      match func item g with
      | (Ok r, g') => map_items func rest (results ++ [r]) g'
      | (Err e, g') => (Err e, g')
      end
  end.

(** [[item for item in items if predicate(item)]]. *)
Fixpoint filter_items (p : callable) (items : list value)
    (results : list value) (g : MagdaDSLGrammar)
  : result (list value) * MagdaDSLGrammar :=
  match items with
  | [] => (Ok results, g)
  | item :: rest =>
      match p item g with
      | (Ok r, g') =>
          filter_items p rest
            (if truthy r then results ++ [item] else results) g'
      | (Err e, g') => (Err e, g')
      end
  end.

Fixpoint reduce_items (func : callable2) (items : list value) (acc : value)
    (g : MagdaDSLGrammar) : result value * MagdaDSLGrammar :=
  match items with
  | [] => (Ok acc, g)
  | item :: rest =>
      match func acc item g with
      | (Ok acc', g') => reduce_items func rest acc' g'
      | (Err e, g') => (Err e, g')
      end
  end.

Definition as_list (r : result (list value) * MagdaDSLGrammar)
  : result value * MagdaDSLGrammar :=
  match r with
  | (Ok l, g) => (Ok (VList l), g)
  | (Err e, g) => (Err e, g)
  end.

Definition map (func : func_arg) (data_arg : value) (g : MagdaDSLGrammar)
  : result value * MagdaDSLGrammar :=
  let actual_data := resolve_data data_arg g in
  match func with
  | FuncStr _ => (Ok actual_data, g)
  | FuncCallable f =>
      match py_iter actual_data with
      | Ok items => as_list (map_items f items [] g)
      | Err e => (Err e, g)
      end
  | FuncValue _ => (Ok actual_data, g)
  end.

Definition filter (p : predicate_arg) (data_arg : value) (g : MagdaDSLGrammar)
  : result value * MagdaDSLGrammar :=
  let actual_data := resolve_data data_arg g in
  match p with
  | PredBool b => (Ok (if b then actual_data else VList []), g)
  | PredCallable f =>
      match py_iter actual_data with
      | Ok items => as_list (filter_items f items [] g)
      | Err e => (Err e, g)
      end
  | PredValue _ => (Ok actual_data, g)
  end.

Definition reduce (func : reducer_arg) (data_arg : value) (initial : value)
    (g : MagdaDSLGrammar) : result value * MagdaDSLGrammar :=
  let actual_data := resolve_data data_arg g in
  match func with
  | ReducerCallable f =>
      match py_iter actual_data with
      | Ok items => reduce_items f items initial g
      | Err e => (Err e, g)
      end
  | ReducerValue _ => (Ok initial, g)
  end.

End ActionParadigmFunctional.

Section ActionParadigmFunctionalFacts.
Import Py ActionParadigm ActionParadigmFunctional.

Lemma map_items_app f l1 : forall l2 acc g,
  map_items f (l1 ++ l2) acc g =
    match map_items f l1 acc g with
    | (Ok acc1, g1) => map_items f l2 acc1 g1
    | (Err e, g1) => (Err e, g1)
    end.
Proof.
  induction l1 as [|x rest IH]; intros l2 acc g; [reflexivity|].
  cbn [app map_items].
  destruct (f x g) as [[r|e] g']; [apply IH|reflexivity].
Qed.

Lemma map_items_length f items : forall acc g rs g',
  map_items f items acc g = (Ok rs, g') ->
  List.length rs = (List.length acc + List.length items)%nat.
Proof.
  induction items as [|x rest IH]; intros acc g rs g' H.
  - cbn in H. inversion H; subst. cbn. lia.
  - cbn [map_items] in H. destruct (f x g) as [[r|e] g1]; [|discriminate].
    rewrite (IH _ _ _ _ H), length_app. cbn. lia.
Qed.

(** X26: the [map] of the action paradigm applies nothing for a function
    reference: given a string as function it returns the data as resolved,
    for every name and every data, and leaves the grammar alone.  Data
    given by a name that was never stored resolves to the name itself, so
    a callable is then applied to the characters of the name. *)
Theorem action_map_with_reference_is_identity :
  forall (name : string) (data_arg : value) (g : MagdaDSLGrammar),
    map (FuncStr name) data_arg g = (Ok (resolve_data data_arg g), g)
    /\ (forall v key, dict_get (data g) key = Some v ->
                      map (FuncStr name) (VStr key) g = (Ok v, g))
    /\ (forall key, dict_get (data g) key = None ->
                    map (FuncStr name) (VStr key) g = (Ok (VStr key), g)
                    /\ forall f,
                         map (FuncCallable f) (VStr key) g
                           = map (FuncCallable f) (VList (chars key)) g).
Proof.
  intros name data_arg g. split; [reflexivity|]. split.
  - intros v key H. unfold map, resolve_data, dict_get_default. now rewrite H.
  - intros key H. unfold map, resolve_data, dict_get_default. rewrite H.
    split; [reflexivity|]. intros f. reflexivity.
Qed.

(** X27: the [map] of the action paradigm does not skip an item whose
    function raises: the error ends the call and the results gathered
    before it are lost.  When it returns over a list, it returns one result
    per item. *)
Theorem action_map_stops_at_first_error :
  forall (f : callable) (pre post : list value) (x : value)
         (g g1 g2 : MagdaDSLGrammar) (acc : list value) (e : exn),
    map_items f pre [] g = (Ok acc, g1) ->
    f x g1 = (Err e, g2) ->
    map (FuncCallable f) (VList (pre ++ x :: post)) g = (Err e, g2)
    /\ (forall items rs g',
          map (FuncCallable f) (VList items) g = (Ok (VList rs), g') ->
          List.length rs = List.length items).
Proof.
  intros f pre post x g g1 g2 acc e Hpre Hx. split.
  - unfold map. cbn [resolve_data py_iter].
    rewrite map_items_app, Hpre. cbn [map_items]. rewrite Hx. reflexivity.
  - intros items rs g' H. unfold map in H. cbn [resolve_data py_iter] in H.
    destruct (map_items f items [] g) as [[l|e'] g0] eqn:E; cbn in H;
      [|discriminate].
    inversion H; subst. eapply (map_items_length f items []). exact E.
Qed.

(** A callable that doubles an integer and raises on anything else. *)
Definition double : callable :=
  fun item g =>
    match item with
    | VInt z => (Ok (VInt (2 * z)), g)
    | _ => (Err (Raise TypeError "not an integer"), g)
    end.

Lemma action_map_stops_at_first_error_witness :
  map (FuncCallable double) (VList ([VInt 1] ++ VStr "x" :: [VInt 3]))
      Samples.afresh
    = (Err (Raise TypeError "not an integer"), Samples.afresh).
Proof.
  exact (proj1 (action_map_stops_at_first_error double [VInt 1] [VInt 3]
                  (VStr "x") Samples.afresh Samples.afresh Samples.afresh
                  [VInt 2] (Raise TypeError "not an integer")
                  eq_refl eq_refl)).
Defined.

End ActionParadigmFunctionalFacts.

Section ActionParadigmFilterFacts.
Import Py ActionParadigm ActionParadigmFunctional.

Lemma filter_items_subset p items : forall acc g rs g',
  filter_items p items acc g = (Ok rs, g') ->
  forall x, In x rs -> In x acc \/ In x items.
Proof.
  induction items as [|y rest IH]; intros acc g rs g' H x Hx.
  - cbn in H. inversion H; subst. now left.
  - cbn [filter_items] in H. destruct (p y g) as [[r|e] g1]; [|discriminate].
    destruct (IH _ _ _ _ H x Hx) as [Hacc|Hrest]; [|right; now right].
    destruct (truthy r); [|now left].
    apply in_app_or in Hacc as [Hacc|[<-|[]]]; [now left|right; now left].
Qed.

(** X28: the [filter] of the action paradigm.  A boolean predicate is not
    evaluated per item: [True] returns the data whole and [False] an empty
    list; a callable predicate returns items of the data only; a predicate
    that is neither returns the data whole; and [reduce] with a function
    that is not callable returns the initial value. *)
Theorem action_filter_cases :
  forall (data_arg : value) (g : MagdaDSLGrammar),
    filter (PredBool true) data_arg g = (Ok (resolve_data data_arg g), g)
    /\ filter (PredBool false) data_arg g = (Ok (VList []), g)
    /\ (forall v, filter (PredValue v) data_arg g
                  = (Ok (resolve_data data_arg g), g))
    /\ (forall p items rs g',
          resolve_data data_arg g = VList items ->
          filter (PredCallable p) data_arg g = (Ok (VList rs), g') ->
          forall x, In x rs -> In x items)
    /\ (forall v initial,
          reduce (ReducerValue v) data_arg initial g = (Ok initial, g)).
Proof.
  intros data_arg g. repeat split.
  intros p items rs g' Hdata H x Hx. unfold filter in H. rewrite Hdata in H.
  cbn [py_iter] in H.
  destruct (filter_items p items [] g) as [[l|e] g0] eqn:E; cbn in H;
    [|discriminate].
  inversion H; subst.
  destruct (filter_items_subset p items [] g rs g' E x Hx) as [[]|Hin].
  exact Hin.
Qed.

End ActionParadigmFilterFacts.

(* ================================================================== *)
(** ** The evaluator and [reduce] on the sample snapshot *)
(* ================================================================== *)

Section EvaluatorExamples.
Import Py Functional FunctionalState FunctionalSamples.

Lemma missing_key_fails_one_segment_late_witness :
  navigate (VDict [("name", VStr "Drums")]) ["nme"] = Ok VNone
  /\ navigate (VDict [("name", VStr "Drums")]) ["nme"; "upper"]
     = Err (Raise ValueError "Property 'upper' not found on NoneType").
Proof.
  exact (missing_key_fails_one_segment_late (B := sample_builtins)
           [("name", VStr "Drums")] "nme" "upper" []
           eq_refl eq_refl eq_refl).
Defined.

Lemma and_or_return_an_operand_witness :
  _evaluate_expression with_tracks (Value (VInt 0)) (Some "and")
                       (Some (Value (VStr "x")))
    = Ok (VInt 0)
  /\ _evaluate_expression with_tracks (Value (VInt 0)) (Some "or")
                          (Some (Value (VStr "x")))
    = Ok (VStr "x").
Proof.
  destruct (and_or_return_an_operand (B := sample_builtins) with_tracks
              (Value (VInt 0)) (Value (VStr "x")) (VInt 0) (VStr "x")
              eq_refl eq_refl) as [Hand [Hor _]].
  split; [exact Hand|exact Hor].
Defined.

Lemma sample_predicates_raise_exceptions_only :
  raises_exceptions_only (iter_var_of "tracks") selected_is_true with_tracks
    [drums; fx_track; bass].
Proof.
  intros item e Hin He.
  destruct Hin as [<-|[<-|[<-|[]]]]; cbn in He; discriminate.
Qed.

Lemma filter_keeps_truthy_items_in_order_witness :
  filter (VStr "tracks") (PredNode selected_is_true) with_tracks
    = (Ok [fx_track], with_tracks).
Proof.
  rewrite (filter_keeps_truthy_items_in_order (B := sample_builtins)
             "tracks" selected_is_true with_tracks [drums; fx_track; bass]
             eq_refl sample_predicates_raise_exceptions_only).
  reflexivity.
Defined.

(** A reducer that adds integers and raises on anything else. *)
Definition add_ints : callable2 :=
  fun acc item g =>
    match acc, item with
    | VInt a, VInt b => (Ok (VInt (a + b)), g)
    | _, _ => (Err (Raise TypeError "not an integer"), g)
    end.

(** A reducer that pairs the value reached with the item. *)
Definition pair_up : callable2 :=
  fun acc item g => (Ok (VList [acc; item]), g).

Lemma reduce_folds_left_and_stops_at_errors_witness :
  reduce (fun _ => add_ints) (ReducerCallable add_ints)
         (VList ([VInt 1; VInt 2] ++ VStr "x" :: [VInt 4])) (VInt 0)
         with_tracks
    = (Err (Raise TypeError "not an integer"), with_tracks)
  /\ reduce (fun _ => add_ints) (ReducerCallable add_ints) (VStr "nothing")
            (VInt 0) with_tracks
    = (Ok (VInt 0), with_tracks)
  /\ reduce (fun _ => add_ints) (ReducerCallable add_ints)
            (VList ([VInt 1; VInt 2] ++ [VInt 4])) (VInt 0) with_tracks
    = (Ok (VInt 7), with_tracks)
  /\ reduce (fun _ => pair_up) (ReducerCallable pair_up)
            (VList [VInt 1; VInt 2; VInt 3]) (VInt 0) with_tracks
    = (Ok (VList [VList [VList [VInt 0; VInt 1]; VInt 2]; VInt 3]),
       with_tracks).
Proof.
  destruct (reduce_folds_left_and_stops_at_errors (B := sample_builtins)
              (fun _ => add_ints) add_ints [VInt 1; VInt 2] [VInt 4]
              (VInt 0) with_tracks)
    as [_ [_ [Hgo [_ [_ [Hstop [_ Hmissing]]]]]]].
  destruct (reduce_folds_left_and_stops_at_errors (B := sample_builtins)
              (fun _ => pair_up) pair_up [VInt 1; VInt 2; VInt 3] []
              (VInt 0) with_tracks)
    as [_ [_ [_ [Hpure _]]]].
  split; [|split; [|split]].
  - exact (Hstop (VStr "x") (VInt 3) with_tracks
             (Raise TypeError "not an integer") with_tracks eq_refl eq_refl).
  - exact (Hmissing "nothing" eq_refl).
  - rewrite (Hgo (VInt 3) with_tracks eq_refl). reflexivity.
  - exact (Hpure (fun a b => VList [a; b]) (fun a b h => eq_refl)).
Defined.

End EvaluatorExamples.

(* ================================================================== *)
(** ** One action per call *)
(* ================================================================== *)

Section CallCountFacts.
Import Py Dsl DslParser.

(** A call that is not a track reference: every call but [track(id=...)]
    and [track(selected=true)]. *)
Definition emits_action (c : call) : bool :=
  match c with
  | Track _ _ _ (Some _) _ => false
  | Track _ _ _ None selected => negb (is_True selected)
  | _ => true
  end.

Definition emitting_calls (prog : list call) : nat :=
  List.length (List.filter emits_action prog).

Ltac split_args :=
  repeat (first
    [ match goal with
      | |- context [match ?x with _ => _ end] => is_var x; destruct x
      | |- context [selected_track_index ?s] =>
          destruct (selected_track_index s)
      | |- context [?a <? ?b] => destruct (a <? b)
      | |- context [?a >=? ?b] => destruct (a >=? b)
      end ];
    cbn [actions current_track_index track_counter state bind negb
         emits_action is_True]).

Lemma handle_emits_one c g :
  match handle c g with
  | Ok g' =>
      if emits_action c
      then exists a, actions g' = actions g ++ [a]
      else actions g' = actions g
  | Err _ => True
  end.
Proof.
  destruct g as [acts cur cnt st].
  destruct c;
    unfold handle, track, new_clip, add_midi, add_fx, set_volume, set_pan,
      set_mute, set_solo, set_name, set_field, append_action, bind_track,
      _get_selected_track_index, emits_action, is_True;
    cbn [actions current_track_index track_counter state bind negb];
    split_args; eauto.
Qed.

Lemma execute_counts prog : forall g,
  exists news,
    actions (fst (execute prog g)) = actions g ++ news
    /\ (List.length news <= emitting_calls prog)%nat
    /\ (snd (execute prog g) = None ->
        List.length news = emitting_calls prog).
Proof.
  induction prog as [|c rest IH]; intros g.
  - exists []. cbn. rewrite app_nil_r. repeat split; auto.
  - cbn [execute]. unfold emitting_calls. cbn [List.filter].
    pose proof (handle_emits_one c g) as Hstep.
    destruct (handle c g) as [g1|e].
    + destruct (IH g1) as [news [Hnews [Hle Heq]]].
      unfold emitting_calls in *.
      destruct (emits_action c).
      * destruct Hstep as [a Ha]. exists (a :: news).
        rewrite Hnews, Ha, <- app_assoc. cbn.
        repeat split; [lia|]. intros H. now rewrite (Heq H).
      * exists news. rewrite Hnews, Hstep. repeat split; auto.
    + exists []. cbn. rewrite app_nil_r.
      repeat split; [lia|discriminate].
Qed.

(** X29: in dsl_parser.py a run only adds to the end of the action list,
    one action for each call that is not a track reference: after a
    program has run without error the list has grown by exactly the number
    of such calls, and after a run cut short by an error by no more than
    that. *)
Theorem execute_adds_one_action_per_call :
  forall (prog : list call) (g : MagdaDSLGrammar),
    exists news,
      actions (fst (execute prog g)) = actions g ++ news
      /\ (List.length news <= emitting_calls prog)%nat
      /\ (snd (execute prog g) = None ->
          List.length news = emitting_calls prog).
Proof. intros prog g. apply execute_counts. Qed.

(** X30: [add_fx] and [add_midi] on a bound track.  [add_fx] with [fxname]
    appends [add_track_fx] and does not look at [instrument]; with
    [instrument] alone it appends [add_instrument], the instrument going
    under the key ["fxname"]; with neither it raises and appends nothing.
    [add_midi] with [note] appends that one note as the list of notes,
    whatever [notes] is; without [note] it appends [notes], or an empty
    list. *)
Theorem add_fx_and_add_midi_on_bound_track :
  forall (g : MagdaDSLGrammar),
    0 <= current_track_index g ->
    let t := VInt (current_track_index g) in
    (forall fxname instrument,
        add_fx (Some fxname) instrument g =
          Ok (append_action [("action", VStr "add_track_fx"); ("track", t);
                             ("fxname", VStr fxname)] g))
    /\ (forall instrument,
        add_fx None (Some instrument) g =
          Ok (append_action [("action", VStr "add_instrument"); ("track", t);
                             ("fxname", VStr instrument)] g))
    /\ add_fx None None g =
         Err (Raise ValueError "FX call must specify fxname or instrument")
    /\ (forall notes note,
        add_midi notes (Some note) g =
          Ok (append_action [("action", VStr "add_midi"); ("track", t);
                             ("notes", VList [VDict note])] g))
    /\ (forall notes,
        add_midi (Some notes) None g =
          Ok (append_action [("action", VStr "add_midi"); ("track", t);
                             ("notes", VList notes)] g))
    /\ add_midi None None g =
         Ok (append_action [("action", VStr "add_midi"); ("track", t);
                            ("notes", VList [])] g).
Proof.
  intros g Hb t.
  assert (Hlt : (current_track_index g <? 0) = false)
    by (apply Z.ltb_ge; exact Hb).
  unfold add_fx, add_midi. rewrite Hlt.
  repeat split; intros; reflexivity.
Qed.

Lemma add_fx_and_add_midi_on_bound_track_witness :
  add_fx (Some "ReaEQ") (Some "Serum") (bind_track 0 Samples.fresh) =
    Ok (append_action [("action", VStr "add_track_fx"); ("track", VInt 0);
                       ("fxname", VStr "ReaEQ")] (bind_track 0 Samples.fresh)).
Proof.
  exact (proj1 (add_fx_and_add_midi_on_bound_track (bind_track 0 Samples.fresh)
                  ltac:(cbn; lia))
               "ReaEQ" (Some "Serum")).
Defined.

End CallCountFacts.

(* ================================================================== *)
(** ** The helper [_get_iter_var_from_collection] *)
(* ================================================================== *)

Section IterVarHelperFacts.
Import Py Functional.

Lemma string_app_assoc (a b c : string) :
  ((a ++ b) ++ c)%string = (a ++ (b ++ c))%string.
Proof. induction a as [|x r IH]; [reflexivity|]. cbn. now rewrite IH. Qed.

(** X13: what [_get_iter_var_from_collection] can return.  The result is
    the default [item], or a beginning of the collection name that has at
    least two characters and does not end in one of the characters [_],
    [l], [i], [s], [t]. *)
Theorem iter_var_helper_shape :
  forall (collection_name : string),
    _get_iter_var_from_collection collection_name = "item"
    \/ ((2 <= String.length
                (_get_iter_var_from_collection collection_name))%nat
        /\ ends_clear (_get_iter_var_from_collection collection_name) "_list"
           = true
        /\ exists t,
             collection_name
             = (_get_iter_var_from_collection collection_name ++ t)%string).
Proof.
  intros name. unfold _get_iter_var_from_collection.
  set (r1 := rstrip name "s").
  set (r2 := rstrip r1 "_chain").
  set (r := rstrip r2 "_list").
  destruct (String.eqb r EmptyString || (Z.of_nat (String.length r) <? 2))
    eqn:E; [now left|right].
  apply orb_false_elim in E as [_ Hlen]. apply Z.ltb_ge in Hlen.
  split; [lia|]. split; [apply rstrip_ends_clear|].
  destruct (rstrip_decomposes name "s") as [t1 [H1 _]].
  destruct (rstrip_decomposes r1 "_chain") as [t2 [H2 _]].
  destruct (rstrip_decomposes r2 "_list") as [t3 [H3 _]].
  fold r1 in H1. fold r2 in H2. fold r in H3.
  exists (t3 ++ (t2 ++ t1))%string.
  rewrite H1 at 1. rewrite H2 at 1. rewrite H3 at 1.
  now rewrite !string_app_assoc.
Qed.

End IterVarHelperFacts.
